(** * The mock-interview workflow: a shallow embedding

    The definitions follow the repository:

    - [Js]: the JavaScript primitives the handlers rely on
      ([String.prototype.trim], truthiness and [||], [Math.round], the
      outcomes of [JSON.parse]);
    - [Interviews], [Questions], [Answers], [Db]: the three tables of the
      migration and the queries the pages issue against them;
    - [Setup] and [handleStartInterview]: the set-up page;
    - [fetchInterview], [generateNextQuestion], [handleSubmitAnswer],
      [generateFinalFeedback]: the interview page;
    - [Proxy]: the [interview-ai] edge function;
    - [Op], [apply_op], [run]: the pages driven by a user, one handler at a
      time;
    - [Write], [commit], [permitted]: the writes a handler sends to the
      store, and what each of them is allowed to be;
    - [Policy]: the row-level-security policies of the migration;
    - [Results] and [follow]: the results page, and the redirects between
      the pages;
    - [progress]: the progress bar of the interview page;
    - [Dashboard]: the dashboard, its statistics and its links.

    The handlers are asynchronous in the source and are run here to
    completion, one after the other.  What the store, the Generation Service
    and the clock answer during a run is an argument, [Env].  Numbers are
    doubles in the source and rationals in lowest terms here.  Identifiers
    and times are natural numbers; strings are byte strings.

    The properties come after the definitions: first what each handler
    does on its own, then what holds along every run of the workflow, then
    what holds along the runs in which the questions can always be read,
    and last what a run achieves when nothing fails. *)

From Stdlib Require Import String Ascii List Bool Arith ZArith QArith Qround Lia.
From Stdlib Require DecimalString.
From Stdlib Require Import Lqa Sorted.
Import ListNotations.

Local Open Scope string_scope.
Local Open Scope nat_scope.
Local Open Scope list_scope.

(** ** JavaScript primitives *)

Module Js.

(** White space as [trim] sees it, on the ASCII range: TAB, LF, VT, FF, CR
    and SPACE. *)
Definition is_white_space (c : ascii) : bool :=
  let n := nat_of_ascii c in
  ((9 <=? n) && (n <=? 13)) || (n =? 32).

Fixpoint trimStart (s : string) : string :=
  match s with
  | EmptyString => EmptyString
  | String c s' => if is_white_space c then trimStart s' else s
  end.

Fixpoint trimEnd (s : string) : string :=
  match s with
  | EmptyString => EmptyString
  | String c s' =>
      match trimEnd s' with
      | EmptyString => if is_white_space c then EmptyString else String c EmptyString
      | t => String c t
      end
  end.

Definition trim (s : string) : string := trimEnd (trimStart s).

(** Truthiness of a string: every string but the empty one. *)
Definition truthy_string (s : string) : bool :=
  match s with EmptyString => false | _ => true end.

(** Truthiness of a number: every number but zero (NaN does not occur in
    parsed JSON). *)
Definition truthy_number (q : Q) : bool := negb (Qnum q =? 0)%Z.

(** A property read off a value that came out of [JSON.parse]: the key may
    be missing ([undefined]), hold [null], or hold a value of the type the
    TypeScript code declares for it. *)
Inductive field (A : Type) : Type :=
| Absent
| IsNull
| Present (a : A).
Arguments Absent {A}.
Arguments IsNull {A}.
Arguments Present {A} a.

(** [v || d] for a number, a string and an array (arrays are always
    truthy). *)
Definition or_number (v : field Q) (d : Q) : Q :=
  match v with
  | Present q => if truthy_number q then q else d
  | _ => d
  end.

Definition or_string (v : field string) (d : string) : string :=
  match v with
  | Present s => if truthy_string s then s else d
  | _ => d
  end.

Definition or_array {A : Type} (v : field (list A)) (d : list A) : list A :=
  match v with
  | Present l => l
  | _ => d
  end.

(** The same operator on an optional in-memory value ([undefined] is
    [None]). *)
Definition or_number_opt (v : option Q) (d : Q) : Q :=
  match v with
  | Some q => if truthy_number q then q else d
  | None => d
  end.

(** What [JSON.parse] does with a text, seen at the type [A] of the
    payload the caller expects: it throws, it returns [null] (on which
    every property access throws in turn), or it returns a value whose
    properties are read as [A] describes. *)
Inductive parsed (A : Type) : Type :=
| Throws
| JsonNull
| JsonValue (a : A).
Arguments Throws {A}.
Arguments JsonNull {A}.
Arguments JsonValue {A} a.

(** [Math.round]: the nearest integer, halves going up. *)
Definition Math_round (x : Q) : Z := Qfloor (x + (1 # 2)).

End Js.

(** ** The schema *)

(** Identifiers ([UUID]) and times ([TIMESTAMP WITH TIME ZONE]). *)
Definition uuid := nat.
Definition timestamp := nat.

Inductive interview_type : Set := technical | behavioral | case_study.
Inductive difficulty_level : Set := junior | mid | senior.
Inductive interview_status : Set := in_progress | completed | cancelled.

Definition interview_status_eqb (a b : interview_status) : bool :=
  match a, b with
  | in_progress, in_progress | completed, completed | cancelled, cancelled => true
  | _, _ => false
  end.

Module Interviews.
Record row : Type := {
  id : uuid;
  user_id : uuid;
  job_role : string;
  difficulty : difficulty_level;
  interview_type : interview_type;
  total_questions : Z;
  status : interview_status;
  overall_score : option Q;
  strengths : option (list string);
  improvements : option (list string);
  created_at : timestamp;
  completed_at : option timestamp
}.
End Interviews.

Module Questions.
Record row : Type := {
  id : uuid;
  interview_id : uuid;
  question_text : string;
  question_order : Z;
  asked_at : timestamp
}.
End Questions.

Module Answers.
Record row : Type := {
  id : uuid;
  question_id : uuid;
  answer_text : string;
  ai_feedback : option string;
  score : option Q;
  created_at : timestamp
}.
End Answers.

(** The store: three tables in insertion order and the source of fresh
    identifiers ([gen_random_uuid()] is modelled by a counter).  A row keeps
    the values the client sent; the rounding and range check of
    [DECIMAL(3,1)] are the store's own and are not modelled. *)
Record Db : Type := {
  interviews : list Interviews.row;
  questions : list Questions.row;
  answers : list Answers.row;
  next_uuid : uuid
}.

Definition empty_db : Db :=
  {| interviews := []; questions := []; answers := []; next_uuid := 0 |}.

(** *** Queries *)

(** [from('interviews').insert({...}).select().single()] of the set-up
    page; the columns it does not mention take their defaults. *)
Definition insert_interview (user : uuid) (role : string) (d : difficulty_level)
    (k : interview_type) (total : Z) (st : interview_status) (now : timestamp)
    (db : Db) : Db * Interviews.row :=
  let r := {| Interviews.id := next_uuid db;
              Interviews.user_id := user;
              Interviews.job_role := role;
              Interviews.difficulty := d;
              Interviews.interview_type := k;
              Interviews.total_questions := total;
              Interviews.status := st;
              Interviews.overall_score := None;
              Interviews.strengths := None;
              Interviews.improvements := None;
              Interviews.created_at := now;
              Interviews.completed_at := None |} in
  ({| interviews := interviews db ++ [r];
      questions := questions db;
      answers := answers db;
      next_uuid := S (next_uuid db) |}, r).

(** [from('interviews').select('*').eq('id', id).single()]: an error unless
    exactly one row matches. *)
Definition select_interview (id : uuid) (db : Db) : option Interviews.row :=
  match filter (fun r => Interviews.id r =? id) (interviews db) with
  | [r] => Some r
  | _ => None
  end.

(** [order('question_order', { ascending: true })]: a stable insertion
    sort (rows of equal order keep their insertion order; the store itself
    promises nothing for ties). *)
Fixpoint insert_by_order (q : Questions.row) (l : list Questions.row)
    : list Questions.row :=
  match l with
  | [] => [q]
  | x :: l' =>
      if (Questions.question_order q <=? Questions.question_order x)%Z
      then q :: l
      else x :: insert_by_order q l'
  end.

Definition order_by_question_order (l : list Questions.row) : list Questions.row :=
  fold_right insert_by_order [] l.

Definition answers_of (qid : uuid) (db : Db) : list Answers.row :=
  filter (fun a => Answers.question_id a =? qid) (answers db).

(** [from('questions').select('*, answers( * )').eq('interview_id', id)
    .order('question_order')]: each question with its embedded answers. *)
Definition select_questions (id : uuid) (db : Db)
    : list (Questions.row * list Answers.row) :=
  map (fun q => (q, answers_of (Questions.id q) db))
      (order_by_question_order
         (filter (fun q => Questions.interview_id q =? id) (questions db))).

(** [from('questions').insert({...}).select().single()]; the foreign key
    demands an existing interview. *)
Definition insert_question (iid : uuid) (text : string) (ord : Z) (now : timestamp)
    (db : Db) : option (Db * Questions.row) :=
  if existsb (fun r => Interviews.id r =? iid) (interviews db) then
    let q := {| Questions.id := next_uuid db;
                Questions.interview_id := iid;
                Questions.question_text := text;
                Questions.question_order := ord;
                Questions.asked_at := now |} in
    Some ({| interviews := interviews db;
             questions := questions db ++ [q];
             answers := answers db;
             next_uuid := S (next_uuid db) |}, q)
  else None.

(** [from('answers').insert({...}).select().single()]; the foreign key
    demands an existing question. *)
Definition insert_answer (qid : uuid) (text feedback : string) (sc : Q)
    (now : timestamp) (db : Db) : option (Db * Answers.row) :=
  if existsb (fun q => Questions.id q =? qid) (questions db) then
    let a := {| Answers.id := next_uuid db;
                Answers.question_id := qid;
                Answers.answer_text := text;
                Answers.ai_feedback := Some feedback;
                Answers.score := Some sc;
                Answers.created_at := now |} in
    Some ({| interviews := interviews db;
             questions := questions db;
             answers := answers db ++ [a];
             next_uuid := S (next_uuid db) |}, a)
  else None.

(** The one update of the interview page:
    [from('interviews').update({ status, overall_score, strengths,
    improvements, completed_at }).eq('id', id)]. *)
Definition set_completed (sc : option Q) (st im : list string) (now : timestamp)
    (r : Interviews.row) : Interviews.row :=
  {| Interviews.id := Interviews.id r;
     Interviews.user_id := Interviews.user_id r;
     Interviews.job_role := Interviews.job_role r;
     Interviews.difficulty := Interviews.difficulty r;
     Interviews.interview_type := Interviews.interview_type r;
     Interviews.total_questions := Interviews.total_questions r;
     Interviews.status := completed;
     Interviews.overall_score := sc;
     Interviews.strengths := Some st;
     Interviews.improvements := Some im;
     Interviews.created_at := Interviews.created_at r;
     Interviews.completed_at := Some now |}.

Definition update_interview (id : uuid) (sc : option Q) (st im : list string)
    (now : timestamp) (db : Db) : Db :=
  {| interviews :=
       map (fun r => if Interviews.id r =? id then set_completed sc st im now r else r)
           (interviews db);
     questions := questions db;
     answers := answers db;
     next_uuid := next_uuid db |}.

(** ** The Generation Service, seen from the pages *)

Inductive request_type : Set := generate_question | evaluate_answer | generate_feedback.

Module Request.
Record qa : Type := {
  question : string;
  answer : string;
  score : Q
}.

(** The body of [supabase.functions.invoke('interview-ai', { body })]. *)
Record body : Type := {
  type : request_type;
  jobRole : string;
  difficulty : difficulty_level;
  interviewType : interview_type;
  questionNumber : option nat;
  totalQuestions : option Z;
  previousQuestions : option (list string);
  currentQuestion : option string;
  userAnswer : option string;
  allQA : option (list qa)
}.
End Request.

(** [{ data, error }] of an invocation: an error, or [data.result]. *)
Inductive invoke_result : Type :=
| InvokeError
| InvokeData (result : string).

(** The payload [handleSubmitAnswer] expects from [evaluate_answer]. *)
Module Evaluation.
Record t : Type := {
  score : Js.field Q;
  feedback : Js.field string
}.
End Evaluation.

(** The payload [generateFinalFeedback] expects from [generate_feedback]. *)
Module Feedback.
Record t : Type := {
  overallScore : Js.field Q;
  strengths : Js.field (list string);
  improvements : Js.field (list string)
}.
End Feedback.

(** [JSON.parse] is the platform's; the handlers are stated over any
    implementation of it, read at the two payload types.  A text whose
    fields hold values of other types than the code declares lies outside
    this reading. *)
Class JSON : Type := {
  parse_evaluation : string -> Js.parsed Evaluation.t;
  parse_feedback : string -> Js.parsed Feedback.t
}.

(** What the outside world answers during one run of a handler: the clock,
    the Generation Service, and whether each request to the store gets
    through ([false]: the client receives [{ data: null, error }] and the
    store is left as it was). *)
Record Env : Type := {
  user : uuid;
  now : timestamp;
  invoke : Request.body -> invoke_result;
  select_interview_ok : bool;
  select_questions_ok : bool;
  insert_interview_ok : bool;
  insert_question_ok : bool;
  insert_answer_ok : bool;
  update_interview_ok : bool
}.

(** ** Client state *)

Inductive Route : Type :=
| RouteAuth
| RouteDashboard
| RouteSetup
| RouteInterview (id : uuid)
| RouteResults (id : uuid).

Record Toast : Type := {
  title : string;
  description : string
}.

Module Setup.

Definition jobRoles : list string :=
  [ "Software Engineer"; "Product Manager"; "Data Scientist"; "UX Designer";
    "DevOps Engineer"; "Marketing Manager"; "Sales Representative";
    "Business Analyst" ].

Definition interviewTypes : list interview_type := [technical; behavioral; case_study].

Definition difficultyLevels : list difficulty_level := [junior; mid; senior].

Definition questionCounts : list Z := [5; 10; 15]%Z.

(** The [useState] cells of the set-up page. *)
Record State : Type := {
  jobRole : string;
  customRole : string;
  interviewType : interview_type;
  difficulty : difficulty_level;
  questionCount : Z;
  isCreating : bool
}.

Definition initial : State :=
  {| jobRole := ""; customRole := ""; interviewType := behavioral;
     difficulty := mid; questionCount := 5%Z; isCreating := false |}.

(** What the user can do on the form: press the [i]-th button of one of the
    four groups, press Custom, or type into the custom-role input. *)
Inductive Event : Type :=
| ClickJobRole (i : nat)
| ClickCustom
| InputCustomRole (text : string)
| ClickInterviewType (i : nat)
| ClickDifficulty (i : nat)
| ClickQuestionCount (i : nat).

Definition setJobRole (v : string) (s : State) : State :=
  {| jobRole := v; customRole := customRole s; interviewType := interviewType s;
     difficulty := difficulty s; questionCount := questionCount s;
     isCreating := isCreating s |}.

Definition setCustomRole (v : string) (s : State) : State :=
  {| jobRole := jobRole s; customRole := v; interviewType := interviewType s;
     difficulty := difficulty s; questionCount := questionCount s;
     isCreating := isCreating s |}.

Definition setInterviewType (v : interview_type) (s : State) : State :=
  {| jobRole := jobRole s; customRole := customRole s; interviewType := v;
     difficulty := difficulty s; questionCount := questionCount s;
     isCreating := isCreating s |}.

Definition setDifficulty (v : difficulty_level) (s : State) : State :=
  {| jobRole := jobRole s; customRole := customRole s; interviewType := interviewType s;
     difficulty := v; questionCount := questionCount s;
     isCreating := isCreating s |}.

Definition setQuestionCount (v : Z) (s : State) : State :=
  {| jobRole := jobRole s; customRole := customRole s; interviewType := interviewType s;
     difficulty := difficulty s; questionCount := v;
     isCreating := isCreating s |}.

Definition setIsCreating (v : bool) (s : State) : State :=
  {| jobRole := jobRole s; customRole := customRole s; interviewType := interviewType s;
     difficulty := difficulty s; questionCount := questionCount s;
     isCreating := v |}.

(** A button exists for each element of its list; the custom-role input is
    rendered only while the role is ['custom']. *)
Definition on_event (ev : Event) (s : State) : State :=
  match ev with
  | ClickJobRole i =>
      match nth_error jobRoles i with Some role => setJobRole role s | None => s end
  | ClickCustom => setJobRole "custom" s
  | InputCustomRole text =>
      if (jobRole s =? "custom")%string then setCustomRole text s else s
  | ClickInterviewType i =>
      match nth_error interviewTypes i with Some t => setInterviewType t s | None => s end
  | ClickDifficulty i =>
      match nth_error difficultyLevels i with Some d => setDifficulty d s | None => s end
  | ClickQuestionCount i =>
      match nth_error questionCounts i with Some c => setQuestionCount c s | None => s end
  end.

End Setup.

(** One completed turn as the interview page keeps it. *)
Record QA : Type := {
  question : string;
  questionId : uuid;
  answer : string;
  answerId : option uuid;
  feedback : option string;
  score : option Q
}.

(** The [useState] cells of the interview page ([''] as a question
    identifier is [None]). *)
Record Session : Type := {
  interview : option Interviews.row;
  qaHistory : list QA;
  currentQuestion : string;
  currentQuestionId : option uuid;
  userAnswer : string;
  isLoading : bool;
  isGenerating : bool;
  isSubmitting : bool;
  questionNumber : nat
}.

Definition initial_session : Session :=
  {| interview := None; qaHistory := []; currentQuestion := "";
     currentQuestionId := None; userAnswer := ""; isLoading := true;
     isGenerating := false; isSubmitting := false; questionNumber := 1 |}.

(** The store together with the browser: the current route, the state of
    the page mounted there, and the notifications shown so far. *)
Record World : Type := {
  db : Db;
  route : Route;
  setup : Setup.State;
  session : Session;
  toasts : list Toast
}.

Definition initial_world : World :=
  {| db := empty_db; route := RouteDashboard; setup := Setup.initial;
     session := initial_session; toasts := [] |}.

(** *** State updates *)

Definition set_db (v : Db) (w : World) : World :=
  {| db := v; route := route w; setup := setup w; session := session w; toasts := toasts w |}.

Definition navigate (v : Route) (w : World) : World :=
  {| db := db w; route := v; setup := setup w; session := session w; toasts := toasts w |}.

Definition set_setup (v : Setup.State) (w : World) : World :=
  {| db := db w; route := route w; setup := v; session := session w; toasts := toasts w |}.

Definition set_session (v : Session) (w : World) : World :=
  {| db := db w; route := route w; setup := setup w; session := v; toasts := toasts w |}.

Definition toast (v : Toast) (w : World) : World :=
  {| db := db w; route := route w; setup := setup w; session := session w; toasts := toasts w ++ [v] |}.

Definition setInterview (v : option Interviews.row) (w : World) : World :=
  set_session
    {| interview := v;
       qaHistory := qaHistory (session w);
       currentQuestion := currentQuestion (session w);
       currentQuestionId := currentQuestionId (session w);
       userAnswer := userAnswer (session w);
       isLoading := isLoading (session w);
       isGenerating := isGenerating (session w);
       isSubmitting := isSubmitting (session w);
       questionNumber := questionNumber (session w) |} w.

Definition setQaHistory (v : list QA) (w : World) : World :=
  set_session
    {| interview := interview (session w);
       qaHistory := v;
       currentQuestion := currentQuestion (session w);
       currentQuestionId := currentQuestionId (session w);
       userAnswer := userAnswer (session w);
       isLoading := isLoading (session w);
       isGenerating := isGenerating (session w);
       isSubmitting := isSubmitting (session w);
       questionNumber := questionNumber (session w) |} w.

Definition setCurrentQuestion (v : string) (w : World) : World :=
  set_session
    {| interview := interview (session w);
       qaHistory := qaHistory (session w);
       currentQuestion := v;
       currentQuestionId := currentQuestionId (session w);
       userAnswer := userAnswer (session w);
       isLoading := isLoading (session w);
       isGenerating := isGenerating (session w);
       isSubmitting := isSubmitting (session w);
       questionNumber := questionNumber (session w) |} w.

Definition setCurrentQuestionId (v : option uuid) (w : World) : World :=
  set_session
    {| interview := interview (session w);
       qaHistory := qaHistory (session w);
       currentQuestion := currentQuestion (session w);
       currentQuestionId := v;
       userAnswer := userAnswer (session w);
       isLoading := isLoading (session w);
       isGenerating := isGenerating (session w);
       isSubmitting := isSubmitting (session w);
       questionNumber := questionNumber (session w) |} w.

Definition setUserAnswer (v : string) (w : World) : World :=
  set_session
    {| interview := interview (session w);
       qaHistory := qaHistory (session w);
       currentQuestion := currentQuestion (session w);
       currentQuestionId := currentQuestionId (session w);
       userAnswer := v;
       isLoading := isLoading (session w);
       isGenerating := isGenerating (session w);
       isSubmitting := isSubmitting (session w);
       questionNumber := questionNumber (session w) |} w.

Definition setIsLoading (v : bool) (w : World) : World :=
  set_session
    {| interview := interview (session w);
       qaHistory := qaHistory (session w);
       currentQuestion := currentQuestion (session w);
       currentQuestionId := currentQuestionId (session w);
       userAnswer := userAnswer (session w);
       isLoading := v;
       isGenerating := isGenerating (session w);
       isSubmitting := isSubmitting (session w);
       questionNumber := questionNumber (session w) |} w.

Definition setIsGenerating (v : bool) (w : World) : World :=
  set_session
    {| interview := interview (session w);
       qaHistory := qaHistory (session w);
       currentQuestion := currentQuestion (session w);
       currentQuestionId := currentQuestionId (session w);
       userAnswer := userAnswer (session w);
       isLoading := isLoading (session w);
       isGenerating := v;
       isSubmitting := isSubmitting (session w);
       questionNumber := questionNumber (session w) |} w.

Definition setIsSubmitting (v : bool) (w : World) : World :=
  set_session
    {| interview := interview (session w);
       qaHistory := qaHistory (session w);
       currentQuestion := currentQuestion (session w);
       currentQuestionId := currentQuestionId (session w);
       userAnswer := userAnswer (session w);
       isLoading := isLoading (session w);
       isGenerating := isGenerating (session w);
       isSubmitting := v;
       questionNumber := questionNumber (session w) |} w.

Definition setQuestionNumber (v : nat) (w : World) : World :=
  set_session
    {| interview := interview (session w);
       qaHistory := qaHistory (session w);
       currentQuestion := currentQuestion (session w);
       currentQuestionId := currentQuestionId (session w);
       userAnswer := userAnswer (session w);
       isLoading := isLoading (session w);
       isGenerating := isGenerating (session w);
       isSubmitting := isSubmitting (session w);
       questionNumber := v |} w.

Definition error_toast (text : string) : Toast :=
  {| title := "Error"; description := text |}.

(** ** The set-up page: [handleStartInterview] *)

(** [jobRole === 'custom' ? customRole : jobRole]. *)
Definition finalRole (s : Setup.State) : string :=
  if (Setup.jobRole s =? "custom")%string then Setup.customRole s else Setup.jobRole s.

Definition handleStartInterview (e : Env) (w : World) : World :=
  let s := setup w in
  if negb (Js.truthy_string (Js.trim (finalRole s))) then
    toast {| title := "Please select a role";
             description := "Choose a job role or enter a custom one." |} w
  else
    let w := set_setup (Setup.setIsCreating true (setup w)) w in
    let w :=
      if insert_interview_ok e then
        let '(db', data) :=
          insert_interview (user e) (finalRole s) (Setup.difficulty s)
            (Setup.interviewType s) (Setup.questionCount s) in_progress (now e) (db w) in
        navigate (RouteInterview (Interviews.id data))
          (toast {| title := "Interview created!";
                    description := "Get ready for your mock interview." |}
             (set_db db' w))
      else
        toast (error_toast "Failed to create interview. Please try again.") w in
    set_setup (Setup.setIsCreating false (setup w)) w.

(** ** The interview page *)

Section InterviewPage.

Context {J : JSON}.

Definition generate_question_body (interviewData : Interviews.row) (history : list QA)
    : Request.body :=
  {| Request.type := generate_question;
     Request.jobRole := Interviews.job_role interviewData;
     Request.difficulty := Interviews.difficulty interviewData;
     Request.interviewType := Interviews.interview_type interviewData;
     Request.questionNumber := Some (length history + 1);
     Request.totalQuestions := Some (Interviews.total_questions interviewData);
     Request.previousQuestions := Some (map question history);
     Request.currentQuestion := None;
     Request.userAnswer := None;
     Request.allQA := None |}.

Definition evaluate_answer_body (interviewData : Interviews.row) (q a : string)
    : Request.body :=
  {| Request.type := evaluate_answer;
     Request.jobRole := Interviews.job_role interviewData;
     Request.difficulty := Interviews.difficulty interviewData;
     Request.interviewType := Interviews.interview_type interviewData;
     Request.questionNumber := None;
     Request.totalQuestions := None;
     Request.previousQuestions := None;
     Request.currentQuestion := Some q;
     Request.userAnswer := Some a;
     Request.allQA := None |}.

Definition generate_feedback_body (interviewData : Interviews.row) (history : list QA)
    : Request.body :=
  {| Request.type := generate_feedback;
     Request.jobRole := Interviews.job_role interviewData;
     Request.difficulty := Interviews.difficulty interviewData;
     Request.interviewType := Interviews.interview_type interviewData;
     Request.questionNumber := None;
     Request.totalQuestions := None;
     Request.previousQuestions := None;
     Request.currentQuestion := None;
     Request.userAnswer := None;
     Request.allQA :=
       Some (map (fun qa => {| Request.question := question qa;
                               Request.answer := answer qa;
                               Request.score := Js.or_number_opt (score qa) 5 |})
                 history) |}.

Definition generateNextQuestion (e : Env) (interviewData : Interviews.row)
    (history : list QA) (w : World) : World :=
  let w := setIsGenerating true w in
  let w :=
    match invoke e (generate_question_body interviewData history) with
    | InvokeError =>
        toast (error_toast "Failed to generate question. Please try again.") w
    | InvokeData result =>
        let questionText := Js.trim result in
        match
          (if insert_question_ok e
           then insert_question (Interviews.id interviewData) questionText
                  (Z.of_nat (length history + 1)) (now e) (db w)
           else None)
        with
        | None =>
            toast (error_toast "Failed to generate question. Please try again.") w
        | Some (db', savedQuestion) =>
            setQuestionNumber (length history + 1)
              (setCurrentQuestionId (Some (Questions.id savedQuestion))
                 (setCurrentQuestion questionText (set_db db' w)))
        end
    end in
  setIsGenerating false w.

(** [history.reduce((sum, qa) => sum + (qa.score || 5), 0)]. *)
Definition sum_scores (history : list QA) : Q :=
  fold_left (fun sum qa => Qred (sum + Js.or_number_opt (score qa) 5)) history 0%Q.

(** [sum / history.length]; on an empty history this is [0 / 0], NaN, which
    is [None] here and [null] once serialised. *)
Definition avgScore (history : list QA) : option Q :=
  match history with
  | [] => None
  | _ => Some (Qred (sum_scores history / inject_Z (Z.of_nat (length history))))
  end.

(** [Math.round(avgScore * 10) / 10]. *)
Definition round_to_tenth (avg : Q) : Q :=
  Qred (inject_Z (Js.Math_round (avg * 10)) / 10).

(** The [try { JSON.parse ... } catch { ... }] of [generateFinalFeedback]:
    the three variables it leaves behind.  A [null] payload makes the first
    property access throw, which lands in the same [catch]. *)
Definition final_overallScore (result : string) (history : list QA) : option Q :=
  match parse_feedback result with
  | Js.JsonValue parsed => Some (Js.or_number (Feedback.overallScore parsed) 5)
  | _ => option_map round_to_tenth (avgScore history)
  end.

Definition final_strengths (result : string) : list string :=
  match parse_feedback result with
  | Js.JsonValue parsed => Js.or_array (Feedback.strengths parsed) []
  | _ => []
  end.

Definition final_improvements (result : string) : list string :=
  match parse_feedback result with
  | Js.JsonValue parsed => Js.or_array (Feedback.improvements parsed) []
  | _ => []
  end.

Definition generateFinalFeedback (e : Env) (interviewData : Interviews.row)
    (history : list QA) (w : World) : World :=
  let w := setIsGenerating true w in
  let w :=
    match invoke e (generate_feedback_body interviewData history) with
    | InvokeError =>
        toast (error_toast "Failed to complete interview. Please try again.") w
    | InvokeData result =>
        let overallScore := final_overallScore result history in
        let strengths := final_strengths result in
        let improvements := final_improvements result in
        if update_interview_ok e then
          navigate (RouteResults (Interviews.id interviewData))
            (set_db (update_interview (Interviews.id interviewData) overallScore
                       strengths improvements (now e) (db w)) w)
        else
          toast (error_toast "Failed to complete interview. Please try again.") w
    end in
  setIsGenerating false w.

(** The [try { JSON.parse ... } catch { ... }] of [handleSubmitAnswer]: the
    two variables it leaves behind. *)
Definition evaluation_feedback (result : string) : string :=
  match parse_evaluation result with
  | Js.JsonValue parsed => Js.or_string (Evaluation.feedback parsed) result
  | _ => result
  end.

Definition evaluation_score (result : string) : Q :=
  match parse_evaluation result with
  | Js.JsonValue parsed => Js.or_number (Evaluation.score parsed) 5
  | _ => 5%Q
  end.

Definition handleSubmitAnswer (e : Env) (w : World) : World :=
  match interview (session w) with
  | None => w
  | Some interviewData =>
      if negb (Js.truthy_string (Js.trim (userAnswer (session w)))) then w
      else
        let w0 := w in
        let w := setIsSubmitting true w in
        let w :=
          match
            invoke e (evaluate_answer_body interviewData
                        (currentQuestion (session w0)) (userAnswer (session w0)))
          with
          | InvokeError =>
              toast (error_toast "Failed to submit answer. Please try again.") w
          | InvokeData result =>
              let feedback := evaluation_feedback result in
              let score := evaluation_score result in
              (* [''] is no identifier: the store rejects the insert *)
              match
                match currentQuestionId (session w0) with
                | Some qid =>
                    if insert_answer_ok e then
                      option_map (fun r => (qid, r))
                        (insert_answer qid (userAnswer (session w0)) feedback score
                           (now e) (db w))
                    else None
                | None => None
                end
              with
              | None =>
                  toast (error_toast "Failed to submit answer. Please try again.") w
              | Some (qid, (db', savedAnswer)) =>
                  let newQA :=
                    {| question := currentQuestion (session w0);
                       questionId := qid;
                       answer := userAnswer (session w0);
                       answerId := Some (Answers.id savedAnswer);
                       feedback := Some feedback;
                       score := Some score |} in
                  let updatedHistory := qaHistory (session w0) ++ [newQA] in
                  let w :=
                    setCurrentQuestion ""
                      (setUserAnswer "" (setQaHistory updatedHistory (set_db db' w))) in
                  if (Interviews.total_questions interviewData
                        <=? Z.of_nat (length updatedHistory))%Z
                  then generateFinalFeedback e interviewData updatedHistory w
                  else generateNextQuestion e interviewData updatedHistory w
              end
          end in
        setIsSubmitting false w
  end.

(** The [map] of [fetchInterview]: a question row with its embedded answers
    as a turn ([q.answers?.[0]] is the first embedded answer). *)
Definition existing_qa (qa : Questions.row * list Answers.row) : QA :=
  let '(q, ans) := qa in
  {| question := Questions.question_text q;
     questionId := Questions.id q;
     answer := match ans with a :: _ => Answers.answer_text a | [] => "" end;
     answerId := match ans with a :: _ => Some (Answers.id a) | [] => None end;
     feedback :=
       match ans with
       | a :: _ =>
           match Answers.ai_feedback a with
           | Some f => if Js.truthy_string f then Some f else None
           | None => None
           end
       | [] => None
       end;
     score :=
       match ans with
       | a :: _ =>
           match Answers.score a with
           | Some sc => if Js.truthy_number sc then Some sc else None
           | None => None
           end
       | [] => None
       end |}.

Definition fetchInterview (e : Env) (id : uuid) (w : World) : World :=
  let w :=
    match (if select_interview_ok e then select_interview id (db w) else None) with
    | None =>
        navigate RouteDashboard
          (toast (error_toast "Failed to load interview") w)
    | Some interviewData =>
        if interview_status_eqb (Interviews.status interviewData) completed then
          navigate (RouteResults id) w
        else
          let w := setInterview (Some interviewData) w in
          let questionsData :=
            if select_questions_ok e then Some (select_questions id (db w)) else None in
          match questionsData with
          | Some ((first :: _) as questionsData) =>
              let existingQA := map existing_qa questionsData in
              let w := setQaHistory existingQA w in
              let w := setQuestionNumber (length questionsData + 1) w in
              let lastQuestion := last questionsData first in
              match snd lastQuestion with
              | [] =>
                  setQuestionNumber (length questionsData)
                    (setQaHistory (removelast existingQA)
                       (setCurrentQuestionId (Some (Questions.id (fst lastQuestion)))
                          (setCurrentQuestion
                             (Questions.question_text (fst lastQuestion)) w)))
              | _ :: _ =>
                  if (Z.of_nat (length questionsData)
                        <? Interviews.total_questions interviewData)%Z
                  then generateNextQuestion e interviewData existingQA w
                  else generateFinalFeedback e interviewData existingQA w
              end
          | _ => generateNextQuestion e interviewData [] w
          end
    end in
  setIsLoading false w.

End InterviewPage.

(** ** The [interview-ai] edge function *)

Module Proxy.

(** What [fetch] to the AI gateway comes back with: the status, and the body
    read as JSON, which either throws (with a message) or yields
    [data.choices?.[0]?.message?.content]. *)
Record GatewayResponse : Type := {
  gateway_status : nat;
  gateway_json : string + option string
}.

(** [response.ok]: a status in the range 200 to 299. *)
Definition ok (r : GatewayResponse) : bool :=
  (200 <=? gateway_status r) && (gateway_status r <=? 299).

(** The request as the handler reads it: the method, and [req.json()],
    which either throws (with a message) or yields the body. *)
Record Request : Type := {
  method : string;
  json : string + Request.body
}.

Inductive Payload : Type :=
| Empty
| Error (error : string)
| Result (result : string).

Record Response : Type := {
  status : nat;
  payload : Payload
}.

(** The [catch] of the handler: [error.message || 'Unknown error occurred']
    with status 500. *)
Definition caught (message : string) : Response :=
  {| status := 500;
     payload := Error (if Js.truthy_string message then message
                       else "Unknown error occurred") |}.

Definition decimal (n : nat) : string :=
  DecimalString.NilEmpty.string_of_uint (Nat.to_uint n).

(** The handler given to [serve].  [LOVABLE_API_KEY] is the environment
    variable; [gateway] is the upstream service, which sees the prompts the
    handler derives from the body and either fails at the network level
    (with a message) or responds. *)
Definition handler (LOVABLE_API_KEY : option string)
    (gateway : Request.body -> string + GatewayResponse) (req : Request) : Response :=
  if (method req =? "OPTIONS")%string then {| status := 200; payload := Empty |}
  else
    match LOVABLE_API_KEY with
    | None | Some EmptyString => caught "LOVABLE_API_KEY is not configured"
    | Some _ =>
        match json req with
        | inl message => caught message
        | inr body =>
            match gateway body with
            | inl message => caught message
            | inr response =>
                if negb (ok response) then
                  if gateway_status response =? 429 then
                    {| status := 429;
                       payload := Error "Rate limit exceeded. Please try again in a moment." |}
                  else if gateway_status response =? 402 then
                    {| status := 402;
                       payload := Error "AI credits exhausted. Please add more credits." |}
                  else
                    caught ("AI gateway error: " ++ decimal (gateway_status response))%string
                else
                  match gateway_json response with
                  | inl message => caught message
                  | inr content =>
                      match content with
                      | None | Some EmptyString => caught "No content in AI response"
                      | Some text => {| status := 200; payload := Result text |}
                      end
                  end
            end
        end
    end.

End Proxy.

(** The handler's first test, [req.method === 'OPTIONS'], negated. *)
Definition method_is_not_options (req : Proxy.Request) : bool :=
  negb (Proxy.method req =? "OPTIONS")%string.

(** ** The workflow *)

(** What happens next in the browser. *)
Inductive Op : Type :=
| Visit (r : Route) (e : Env)          (* open or reload a page *)
| SetupInput (ev : Setup.Event)        (* use the set-up form *)
| PressStart (e e' : Env)              (* Start Interview, then the page it leads to *)
| TypeAnswer (text : string)           (* type into the answer box *)
| PressSubmit (e : Env).               (* Send, or Enter in the answer box *)

(** The answer box and its button are rendered only once the interview is
    loaded, a question is on display and no generation is under way. *)
Definition input_area_rendered (w : World) : bool :=
  match route w, interview (session w) with
  | RouteInterview _, Some _ =>
      negb (isLoading (session w))
      && Js.truthy_string (currentQuestion (session w))
      && negb (isGenerating (session w))
  | _, _ => false
  end.

Section Workflow.

Context {J : JSON}.

(** Mounting the interview page: fresh state, then the effect that runs
    [fetchInterview]. *)
Definition mount_interview (e : Env) (id : uuid) (w : World) : World :=
  fetchInterview e id (set_session initial_session (navigate (RouteInterview id) w)).

Definition apply_op (o : Op) (w : World) : World :=
  match o with
  | Visit (RouteInterview id) e => mount_interview e id w
  | Visit RouteSetup _ => set_setup Setup.initial (navigate RouteSetup w)
  | Visit r _ => navigate r w
  | SetupInput ev =>
      match route w with
      | RouteSetup => set_setup (Setup.on_event ev (setup w)) w
      | _ => w
      end
  | PressStart e e' =>
      match route w with
      | RouteSetup =>
          let w' := handleStartInterview e w in
          match route w' with
          | RouteInterview id => mount_interview e' id w'
          | _ => w'
          end
      | _ => w
      end
  | TypeAnswer text =>
      if input_area_rendered w then setUserAnswer text w else w
  | PressSubmit e =>
      if input_area_rendered w then handleSubmitAnswer e w else w
  end.

Definition run (ops : list Op) (w : World) : World :=
  fold_left (fun w o => apply_op o w) ops w.

End Workflow.

(** ** Vocabulary of the properties *)

Section Vocabulary.

Context {J : JSON}.

(** The answer row [handleSubmitAnswer] sends to the store, and the turn it
    appends to the history. *)
Definition sent_answer (e : Env) (w : World) (qid : uuid) (raw : string) : Answers.row :=
  {| Answers.id := next_uuid (db w);
     Answers.question_id := qid;
     Answers.answer_text := userAnswer (session w);
     Answers.ai_feedback := Some (evaluation_feedback raw);
     Answers.score := Some (evaluation_score raw);
     Answers.created_at := now e |}.

Definition recorded_turn (w : World) (qid : uuid) (raw : string) : QA :=
  {| question := currentQuestion (session w);
     questionId := qid;
     answer := userAnswer (session w);
     answerId := Some (next_uuid (db w));
     feedback := Some (evaluation_feedback raw);
     score := Some (evaluation_score raw) |}.

End Vocabulary.

Definition answer_stored (a : Answers.row) (d : Db) : Db :=
  {| interviews := interviews d; questions := questions d;
     answers := answers d ++ [a]; next_uuid := S (next_uuid d) |}.


(** An interview that has not been completed, and one that has. *)
Definition not_completed (r : Interviews.row) : Prop :=
  Interviews.status r = in_progress
  /\ Interviews.overall_score r = None
  /\ Interviews.strengths r = None
  /\ Interviews.improvements r = None
  /\ Interviews.completed_at r = None.

Definition is_completed (r : Interviews.row) : Prop :=
  Interviews.status r = completed
  /\ Interviews.overall_score r <> None
  /\ Interviews.strengths r <> None
  /\ Interviews.improvements r <> None
  /\ Interviews.completed_at r <> None.

Definition same_configuration (r r' : Interviews.row) : Prop :=
  Interviews.id r' = Interviews.id r
  /\ Interviews.user_id r' = Interviews.user_id r
  /\ Interviews.job_role r' = Interviews.job_role r
  /\ Interviews.difficulty r' = Interviews.difficulty r
  /\ Interviews.interview_type r' = Interviews.interview_type r
  /\ Interviews.total_questions r' = Interviews.total_questions r
  /\ Interviews.created_at r' = Interviews.created_at r.

(** What one step of the workflow may do to an interview row: nothing, or
    complete it. *)
Definition row_step (r r' : Interviews.row) : Prop :=
  r' = r \/ (not_completed r /\ is_completed r' /\ same_configuration r r').

(** What the set-up page guarantees of a row. *)
Definition from_setup (r : Interviews.row) : Prop :=
  In (Interviews.total_questions r) Setup.questionCounts
  /\ Js.trim (Interviews.job_role r) <> "".

Record store_ok (d : Db) : Prop := {
  ids_distinct : NoDup (map Interviews.id (interviews d));
  ids_issued : Forall (fun r => Interviews.id r < next_uuid d) (interviews d);
  rows_ok : Forall (fun r => (not_completed r \/ is_completed r) /\ from_setup r)
              (interviews d)
}.

(** The pages: the form offers the three counts only, and the interview on
    display is a row of the store that is not completed. *)
Definition on_display (w : World) : Prop :=
  forall id iv, route w = RouteInterview id ->
    interview (session w) = Some iv ->
    In iv (interviews (db w)) /\ Interviews.status iv <> completed.

Definition page_ok (w : World) : Prop :=
  In (Setup.questionCount (setup w)) Setup.questionCounts /\ on_display w.

(** The interview table after a step, against the table before. *)
Definition table_step (d d' : Db) : Prop :=
  exists rows' extra,
    interviews d' = rows' ++ extra /\ Forall2 row_step (interviews d) rows'.

(** The row [handleStartInterview] creates. *)
Definition created_row (e : Env) (w : World) : Interviews.row :=
  {| Interviews.id := next_uuid (db w);
     Interviews.user_id := user e;
     Interviews.job_role := finalRole (setup w);
     Interviews.difficulty := Setup.difficulty (setup w);
     Interviews.interview_type := Setup.interviewType (setup w);
     Interviews.total_questions := Setup.questionCount (setup w);
     Interviews.status := in_progress;
     Interviews.overall_score := None;
     Interviews.strengths := None;
     Interviews.improvements := None;
     Interviews.created_at := now e;
     Interviews.completed_at := None |}.

(** A persisted question that has an answer. *)
Definition answered (qa : Questions.row * list Answers.row) : bool :=
  match snd qa with [] => false | _ :: _ => true end.


(** The order indices of an interview's questions, read back in order. *)
Definition question_orders (id : uuid) (d : Db) : list Z :=
  map (fun qa => Questions.question_order (fst qa)) (select_questions id d).

(** The number of an interview's questions that have an answer. *)
Definition answered_count (id : uuid) (d : Db) : nat :=
  length (filter answered (select_questions id d)).

(** ** Vocabulary of the turn-taking invariant *)



Definition question_stored (q : Questions.row) (d : Db) : Db :=
  {| interviews := interviews d; questions := questions d ++ [q];
     answers := answers d; next_uuid := S (next_uuid d) |}.







(** ** Sample data for the examples *)

Definition dq : string := String (ascii_of_nat 34) EmptyString.

(** [{"score":0,"feedback":""}] *)
Definition zero_evaluation_text : string :=
  ("{" ++ dq ++ "score" ++ dq ++ ":0," ++ dq ++ "feedback" ++ dq ++ ":" ++ dq ++ dq ++ "}")%string.

(** [{"score":8,"feedback":"Clear and complete."}] *)
Definition good_evaluation_text : string :=
  ("{" ++ dq ++ "score" ++ dq ++ ":8," ++ dq ++ "feedback" ++ dq ++ ":"
       ++ dq ++ "Clear and complete." ++ dq ++ "}")%string.

(** [{"overallScore":0,"strengths":["Clarity"]}] *)
Definition zero_feedback_text : string :=
  ("{" ++ dq ++ "overallScore" ++ dq ++ ":0," ++ dq ++ "strengths" ++ dq ++ ":["
       ++ dq ++ "Clarity" ++ dq ++ "]}")%string.

(** [JSON.parse] on the texts the examples use: the three objects above, and
    prose, which is no JSON. *)
Definition sample_json : JSON :=
  {| parse_evaluation := fun s =>
       if (s =? zero_evaluation_text)%string then
         Js.JsonValue {| Evaluation.score := Js.Present 0%Q;
                         Evaluation.feedback := Js.Present "" |}
       else if (s =? good_evaluation_text)%string then
         Js.JsonValue {| Evaluation.score := Js.Present 8%Q;
                         Evaluation.feedback := Js.Present "Clear and complete." |}
       else if (s =? "null")%string then Js.JsonNull
       else Js.Throws;
     parse_feedback := fun s =>
       if (s =? zero_feedback_text)%string then
         Js.JsonValue {| Feedback.overallScore := Js.Present 0%Q;
                         Feedback.strengths := Js.Present ["Clarity"];
                         Feedback.improvements := Js.Absent |}
       else if (s =? "null")%string then Js.JsonNull
       else Js.Throws |}.

(** A Generation Service that answers every request of a kind with the same
    text, and a store that is reachable. *)
Definition sample_env (q ev fb : invoke_result) : Env :=
  {| user := 7; now := 100;
     invoke := fun b =>
       match Request.type b with
       | generate_question => q
       | evaluate_answer => ev
       | generate_feedback => fb
       end;
     select_interview_ok := true; select_questions_ok := true;
     insert_interview_ok := true; insert_question_ok := true;
     insert_answer_ok := true; update_interview_ok := true |}.

(** The same, but the read of the questions does not get through. *)
Definition questions_unreadable (e : Env) : Env :=
  {| user := user e; now := now e; invoke := invoke e;
     select_interview_ok := select_interview_ok e; select_questions_ok := false;
     insert_interview_ok := insert_interview_ok e;
     insert_question_ok := insert_question_ok e;
     insert_answer_ok := insert_answer_ok e;
     update_interview_ok := update_interview_ok e |}.

Definition prose_env : Env :=
  sample_env (InvokeData "  Tell me about a conflict you resolved.  ")
             (InvokeData "Solid answer, but add a concrete example.")
             (InvokeData "Overall a good interview.").

Definition down_env : Env := sample_env InvokeError InvokeError InvokeError.

(** Set up a five-question interview and land on its first question. *)
Definition start_ops : list Op :=
  [ Visit RouteSetup prose_env; SetupInput (Setup.ClickJobRole 0);
    PressStart prose_env prose_env ].

Definition turn_ops : list Op :=
  [ TypeAnswer "I listened first, then proposed a compromise."; PressSubmit prose_env ].

(** The same, but the read of the interview does not get through. *)
Definition interview_unreadable (e : Env) : Env :=
  {| user := user e; now := now e; invoke := invoke e;
     select_interview_ok := false; select_questions_ok := select_questions_ok e;
     insert_interview_ok := insert_interview_ok e;
     insert_question_ok := insert_question_ok e;
     insert_answer_ok := insert_answer_ok e;
     update_interview_ok := update_interview_ok e |}.

(** Reload the interview page while the questions cannot be read. *)
Definition blind_reload : list Op :=
  [ Visit (RouteInterview 0) (questions_unreadable prose_env) ].

(** The interview [start_ops] creates. *)
Definition sample_interview : Interviews.row :=
  {| Interviews.id := 0;
     Interviews.user_id := 7;
     Interviews.job_role := "Software Engineer";
     Interviews.difficulty := mid;
     Interviews.interview_type := behavioral;
     Interviews.total_questions := 5;
     Interviews.status := in_progress;
     Interviews.overall_score := None;
     Interviews.strengths := None;
     Interviews.improvements := None;
     Interviews.created_at := 100;
     Interviews.completed_at := None |}.


(** The world with that question on display, and with an answer typed. *)
Definition asked_world : World := @run sample_json start_ops initial_world.

Definition typed_world : World :=
  @apply_op sample_json (TypeAnswer "I listened first, then proposed a compromise.")
    asked_world.




(** A gateway that is rate limited, and a request of the page. *)
Definition limited_gateway (_ : Request.body) : string + Proxy.GatewayResponse :=
  inr {| Proxy.gateway_status := 429; Proxy.gateway_json := inr None |}.

Definition sample_request : Proxy.Request :=
  {| Proxy.method := "POST";
     Proxy.json := inr (@generate_question_body sample_interview []) |}.

(** ** Vocabulary of the properties of single handlers *)

(** A string of white space only, the empty one included. *)
Fixpoint blank (s : string) : bool :=
  match s with
  | EmptyString => true
  | String c s' => Js.is_white_space c && blank s'
  end.

(** A string that does not begin with white space. *)
Definition starts_black (s : string) : Prop :=
  match s with
  | EmptyString => True
  | String c _ => Js.is_white_space c = false
  end.

(** The notification each handler of the interview page shows when it
    fails. *)
Definition submit_failed : Toast :=
  error_toast "Failed to submit answer. Please try again.".

Definition question_failed : Toast :=
  error_toast "Failed to generate question. Please try again.".

(** The question row [generateNextQuestion] sends to the store. *)
Definition sent_question (e : Env) (iv : Interviews.row) (history : list QA)
    (raw : string) (d : Db) : Questions.row :=
  {| Questions.id := next_uuid d;
     Questions.interview_id := Interviews.id iv;
     Questions.question_text := Js.trim raw;
     Questions.question_order := Z.of_nat (length history + 1);
     Questions.asked_at := now e |}.

(** ** Vocabulary of the store-wide properties *)

(** A write of the workflow to the store: one of the three inserts, or the
    one update. *)
Inductive Write : Type :=
| CreateInterview (r : Interviews.row)
| StoreQuestion (q : Questions.row)
| StoreAnswer (a : Answers.row)
| CompleteInterview (id : uuid) (sc : option Q) (st im : list string) (t : timestamp).

Definition interview_stored (r : Interviews.row) (d : Db) : Db :=
  {| interviews := interviews d ++ [r]; questions := questions d;
     answers := answers d; next_uuid := S (next_uuid d) |}.

Definition commit (x : Write) (d : Db) : Db :=
  match x with
  | CreateInterview r => interview_stored r d
  | StoreQuestion q => question_stored q d
  | StoreAnswer a => answer_stored a d
  | CompleteInterview id sc st im t => update_interview id sc st im t d
  end.

Definition commits (log : list Write) (d : Db) : Db :=
  fold_left (fun d x => commit x d) log d.

(** A question as [generateNextQuestion] stores it: trimmed, with an order
    from 1 on. *)
Definition well_formed_question (q : Questions.row) : Prop :=
  Js.trim (Questions.question_text q) = Questions.question_text q
  /\ (1 <= Questions.question_order q)%Z.

(** An answer as [handleSubmitAnswer] stores it: not blank, with a feedback
    and a score that is not zero. *)
Definition well_formed_answer (a : Answers.row) : Prop :=
  blank (Answers.answer_text a) = false
  /\ (exists f, Answers.ai_feedback a = Some f)
  /\ (exists sc, Answers.score a = Some sc /\ Js.truthy_number sc = true).

(** An interview of the store that is not completed. *)
Definition open_interview (d : Db) (iv : Interviews.row) : Prop :=
  In iv (interviews d) /\ Interviews.status iv <> completed.

(** The writes the workflow allows itself on a store: a new interview in
    progress as the set-up page configures it; a question for an interview
    that is not completed; an answer to a stored question of an interview
    that is not completed; the completion of an interview that is not
    completed. *)
Definition permitted (d : Db) (x : Write) : Prop :=
  match x with
  | CreateInterview r =>
      Interviews.id r = next_uuid d /\ not_completed r /\ from_setup r
  | StoreQuestion q =>
      Questions.id q = next_uuid d /\ well_formed_question q
      /\ exists iv, open_interview d iv /\ Questions.interview_id q = Interviews.id iv
  | StoreAnswer a =>
      Answers.id a = next_uuid d /\ well_formed_answer a
      /\ exists iv q,
           open_interview d iv /\ In q (questions d)
           /\ Questions.interview_id q = Interviews.id iv
           /\ Answers.question_id a = Questions.id q
  | CompleteInterview id sc st im t =>
      sc <> None /\ exists iv, open_interview d iv /\ Interviews.id iv = id
  end.

Fixpoint permitted_log (d : Db) (log : list Write) : Prop :=
  match log with
  | [] => True
  | x :: log' => permitted d x /\ permitted_log (commit x d) log'
  end.

(** The four kinds of write, and the rows a log adds to each table. *)
Definition write_kind (x : Write) : nat :=
  match x with
  | CreateInterview _ => 0
  | StoreQuestion _ => 1
  | StoreAnswer _ => 2
  | CompleteInterview _ _ _ _ _ => 3
  end.

Definition log_interviews (log : list Write) : list Interviews.row :=
  flat_map (fun x => match x with CreateInterview r => [r] | _ => [] end) log.

Definition log_questions (log : list Write) : list Questions.row :=
  flat_map (fun x => match x with StoreQuestion q => [q] | _ => [] end) log.

Definition log_answers (log : list Write) : list Answers.row :=
  flat_map (fun x => match x with StoreAnswer a => [a] | _ => [] end) log.

(** A log without a new interview. *)
Definition creates_nothing (log : list Write) : Prop :=
  forall r, ~ In (CreateInterview r) log.

(** The rows of the store hang together: identifiers are distinct and were
    issued, every question belongs to a stored interview and every answer
    to a stored question, and each row is as its handler writes it. *)
Record rows_sound (d : Db) : Prop := {
  sound_store_ok : store_ok d;
  sound_question_ids : NoDup (map Questions.id (questions d));
  sound_question_issued : Forall (fun q => Questions.id q < next_uuid d) (questions d);
  sound_answer_ids : NoDup (map Answers.id (answers d));
  sound_answer_issued : Forall (fun a => Answers.id a < next_uuid d) (answers d);
  sound_question_refs :
    Forall (fun q => In (Questions.interview_id q) (map Interviews.id (interviews d)))
           (questions d);
  sound_answer_refs :
    Forall (fun a => In (Answers.question_id a) (map Questions.id (questions d)))
           (answers d);
  sound_questions : Forall well_formed_question (questions d);
  sound_answers : Forall well_formed_answer (answers d)
}.

(** The question on display is a stored question of the interview on
    display, shown with its stored text and held by its identifier. *)
Definition question_on_display (w : World) : Prop :=
  forall iv,
    interview (session w) = Some iv ->
    currentQuestion (session w) <> "" ->
    Interviews.status iv <> completed
    /\ exists q,
         In q (questions (db w))
         /\ Questions.interview_id q = Interviews.id iv
         /\ currentQuestionId (session w) = Some (Questions.id q)
         /\ currentQuestion (session w) = Questions.question_text q.

Definition sound (w : World) : Prop :=
  rows_sound (db w) /\ page_ok w /\ question_on_display w.

(** ** Row-level security *)

(** The policies of the migration, as the conditions they put on a row for
    the signed-in user [auth.uid()]. *)
Module Policy.

(** [auth.uid() = user_id]: SELECT, INSERT, UPDATE and DELETE on
    [interviews]. *)
Definition on_interviews (uid : uuid) (r : Interviews.row) : bool :=
  uid =? Interviews.user_id r.

(** [EXISTS (SELECT 1 FROM interviews WHERE interviews.id =
    questions.interview_id AND interviews.user_id = auth.uid())]: SELECT
    and INSERT on [questions]. *)
Definition on_questions (uid : uuid) (d : Db) (q : Questions.row) : bool :=
  existsb (fun i => (Interviews.id i =? Questions.interview_id q)
                    && (Interviews.user_id i =? uid))
          (interviews d).

(** [EXISTS (SELECT 1 FROM questions q JOIN interviews i ON i.id =
    q.interview_id WHERE q.id = answers.question_id AND i.user_id =
    auth.uid())]: SELECT, INSERT and UPDATE on [answers]. *)
Definition on_answers (uid : uuid) (d : Db) (a : Answers.row) : bool :=
  existsb (fun q =>
             existsb (fun i => (Interviews.id i =? Questions.interview_id q)
                               && ((Questions.id q =? Answers.question_id a)
                                   && (Interviews.user_id i =? uid)))
                     (interviews d))
          (questions d).

End Policy.

(** An operation carried out while [uid] is signed in. *)
Definition acts_as (uid : uuid) (o : Op) : Prop :=
  match o with
  | Visit _ e => user e = uid
  | PressStart e e' => user e = uid /\ user e' = uid
  | PressSubmit e => user e = uid
  | _ => True
  end.

(** A whole interview of five questions, answered one after the other, and
    what the user may try afterwards. *)
Definition complete_ops : list Op :=
  start_ops ++ turn_ops ++ turn_ops ++ turn_ops ++ turn_ops ++ turn_ops.


(** ** The results page *)

Module Results.

(** One turn as the results page lists it. *)
Record QA : Type := {
  question : string;
  answer : string;
  feedback : string;
  score : Q
}.

(** The [useState] cells of the results page. *)
Record State : Type := {
  interview : option Interviews.row;
  qaList : list QA;
  expandedQA : option nat;
  isLoading : bool
}.

Definition initial : State :=
  {| interview := None; qaList := []; expandedQA := None; isLoading := true |}.

Definition setInterview (v : option Interviews.row) (s : State) : State :=
  {| interview := v; qaList := qaList s; expandedQA := expandedQA s;
     isLoading := isLoading s |}.

Definition setQaList (v : list QA) (s : State) : State :=
  {| interview := interview s; qaList := v; expandedQA := expandedQA s;
     isLoading := isLoading s |}.

Definition setExpandedQA (v : option nat) (s : State) : State :=
  {| interview := interview s; qaList := qaList s; expandedQA := v;
     isLoading := isLoading s |}.

Definition setIsLoading (v : bool) (s : State) : State :=
  {| interview := interview s; qaList := qaList s; expandedQA := expandedQA s;
     isLoading := v |}.

(** The [map] of [fetchResults]: [q.answers?.[0]?.answer_text || ''],
    [... .ai_feedback || ''] and [... .score || 0]. *)
Definition qa_of (qa : Questions.row * list Answers.row) : QA :=
  let '(q, ans) := qa in
  {| question := Questions.question_text q;
     answer := match ans with a :: _ => Answers.answer_text a | [] => "" end;
     feedback :=
       match ans with
       | a :: _ => match Answers.ai_feedback a with Some f => f | None => "" end
       | [] => ""
       end;
     score :=
       match ans with
       | a :: _ => Js.or_number_opt (Answers.score a) 0
       | [] => 0%Q
       end |}.

Definition fetchResults (e : Env) (id : uuid) (s : State) (w : World) : State * World :=
  let '(s, w) :=
    match (if select_interview_ok e then select_interview id (db w) else None) with
    | None =>
        (s, navigate RouteDashboard (toast (error_toast "Failed to load results") w))
    | Some interviewData =>
        if negb (interview_status_eqb (Interviews.status interviewData) completed) then
          (s, navigate (RouteInterview id) w)
        else
          let s := setInterview (Some interviewData) s in
          match (if select_questions_ok e then Some (select_questions id (db w)) else None) with
          | Some questionsData => (setQaList (map qa_of questionsData) s, w)
          | None => (s, w)
          end
    end in
  (setIsLoading false s, w).

(** Mounting the results page: fresh state, then the effect that runs
    [fetchResults]. *)
Definition mount (e : Env) (id : uuid) (w : World) : State * World :=
  fetchResults e id initial (navigate (RouteResults id) w).

(** [setExpandedQA(expandedQA === index ? null : index)]. *)
Definition toggle (index : nat) (s : State) : State :=
  setExpandedQA
    (match expandedQA s with
     | Some i => if i =? index then None else Some index
     | None => Some index
     end) s.

(** [score >= n] on numbers. *)
Definition ge (score n : Q) : bool := Qle_bool n score.

Definition getScoreColor (score : Q) : string :=
  if ge score 8 then "text-success"
  else if ge score 6 then "text-primary"
  else if ge score 4 then "text-yellow-500"
  else "text-destructive".

Definition getScoreBg (score : Q) : string :=
  if ge score 8 then "bg-success/10 border-success/30"
  else if ge score 6 then "bg-primary/10 border-primary/30"
  else if ge score 4 then "bg-yellow-500/10 border-yellow-500/30"
  else "bg-destructive/10 border-destructive/30".

(** The line under the overall score. *)
Definition headline (overall_score : Q) : string :=
  if ge overall_score 8 then "Excellent Performance!"
  else if ge overall_score 6 then "Good Job!"
  else if ge overall_score 4 then "Room for Improvement"
  else "Keep Practicing!".

End Results.

(** ** From page to page *)

Definition route_eqb (a b : Route) : bool :=
  match a, b with
  | RouteAuth, RouteAuth | RouteDashboard, RouteDashboard | RouteSetup, RouteSetup => true
  | RouteInterview i, RouteInterview j | RouteResults i, RouteResults j => i =? j
  | _, _ => false
  end.

Section Pages.

Context {J : JSON}.

(** Opening a page by its route: the page is mounted and its effect runs. *)
Definition open_page (e : Env) (r : Route) (p : Results.State * World)
    : Results.State * World :=
  match r with
  | RouteResults id => Results.mount e id (snd p)
  | _ => (fst p, apply_op (Visit r e) (snd p))
  end.

(** Opening a page and following where its effect navigates to, one
    environment for each page opened, until a page stays. *)
Fixpoint follow (es : list Env) (r : Route) (p : Results.State * World)
    : option (Results.State * World) :=
  match es with
  | [] => None
  | e :: es' =>
      let p' := open_page e r p in
      if route_eqb (route (snd p')) r then Some p'
      else follow es' (route (snd p')) p'
  end.

End Pages.

(** ** What the interview page shows *)



(** ** The dashboard *)

(** [order('created_at', { ascending: false })]: a stable insertion sort,
    newest first (the store itself promises nothing for ties). *)
Fixpoint insert_by_created (r : Interviews.row) (l : list Interviews.row)
    : list Interviews.row :=
  match l with
  | [] => [r]
  | x :: l' =>
      if Interviews.created_at x <=? Interviews.created_at r
      then r :: l
      else x :: insert_by_created r l'
  end.

Definition order_by_created_at_desc (l : list Interviews.row) : list Interviews.row :=
  fold_right insert_by_created [] l.

(** [from('interviews').select('*').order('created_at', { ascending: false })
    .limit(10)]: the query names no user, so the rows are those the policy
    of the table lets the signed-in user see. *)
Definition select_recent_interviews (uid : uuid) (d : Db) : list Interviews.row :=
  firstn 10
    (order_by_created_at_desc (filter (Policy.on_interviews uid) (interviews d))).

(** Newer or as new. *)
Definition not_older (a b : Interviews.row) : Prop :=
  Interviews.created_at b <= Interviews.created_at a.

Module Dashboard.

Record Stats : Type := {
  totalInterviews : nat;
  completedInterviews : nat;
  averageScore : Q;
  lastWeekInterviews : nat
}.

(** The [useState] cells of the dashboard. *)
Record State : Type := {
  interviews : list Interviews.row;
  stats : Stats;
  loading : bool
}.

Definition initial : State :=
  {| interviews := [];
     stats := {| totalInterviews := 0; completedInterviews := 0;
                 averageScore := 0; lastWeekInterviews := 0 |};
     loading := true |}.

Definition setInterviews (v : list Interviews.row) (s : State) : State :=
  {| interviews := v; stats := stats s; loading := loading s |}.

Definition setStats (v : Stats) (s : State) : State :=
  {| interviews := interviews s; stats := v; loading := loading s |}.

Definition setLoading (v : bool) (s : State) : State :=
  {| interviews := interviews s; stats := stats s; loading := v |}.

(** [completed.reduce((sum, i) => sum + (i.overall_score || 0), 0)]. *)
Definition sum_overall (l : list Interviews.row) : Q :=
  fold_left (fun sum i => Qred (sum + Js.or_number_opt (Interviews.overall_score i) 0))
            l 0%Q.

(** The interviews of the list that are completed. *)
Definition completed_of (l : list Interviews.row) : list Interviews.row :=
  filter (fun i => interview_status_eqb (Interviews.status i) completed) l.

(** [avgScore]: the mean over the completed interviews, or 0 when there is
    none. *)
Definition avgScore (l : list Interviews.row) : Q :=
  if 0 <? length (completed_of l)
  then Qred (sum_overall (completed_of l) / inject_Z (Z.of_nat (length (completed_of l))))
  else 0%Q.

(** [fetchInterviews]; [weekAgo] is the platform's [new Date()] set back by
    seven days, and whether the read of the interviews gets through is
    [select_interview_ok]. *)
Definition fetchInterviews (e : Env) (weekAgo : timestamp) (s : State) (w : World)
    : State * World :=
  let '(s, w) :=
    if select_interview_ok e then
      let typedData := select_recent_interviews (user e) (db w) in
      let s := setInterviews typedData s in
      let recentInterviews :=
        filter (fun i => weekAgo <=? Interviews.created_at i) typedData in
      (setStats {| totalInterviews := length typedData;
                   completedInterviews := length (completed_of typedData);
                   averageScore := round_to_tenth (avgScore typedData);
                   lastWeekInterviews := length recentInterviews |} s,
       w)
    else (s, toast (error_toast "Failed to load interviews") w) in
  (setLoading false s, w).

(** The entries under Recent Interviews: [interviews.slice(0, 5)]. *)
Definition recent (s : State) : list Interviews.row := firstn 5 (interviews s).

(** Where a click on an entry leads. *)
Definition link (i : Interviews.row) : Route :=
  if interview_status_eqb (Interviews.status i) completed
  then RouteResults (Interviews.id i)
  else RouteInterview (Interviews.id i).

End Dashboard.

(** The world after the whole interview, and the row of the interview
    then. *)
Definition completed_world : World := @run sample_json complete_ops initial_world.

Definition completed_interview : Interviews.row :=
  set_completed (Some 5%Q) [] [] 100 sample_interview.


(** ** Vocabulary of the run without failures *)






(** * Properties *)

(** ** What the generation handlers leave alone *)

Section Frames.

Context {J : JSON}.

Lemma insert_question_frame iid text ord t d d' q :
  insert_question iid text ord t d = Some (d', q) ->
  interviews d' = interviews d /\ answers d' = answers d
  /\ questions d' = questions d ++ [q]
  /\ next_uuid d' = S (next_uuid d)
  /\ q = {| Questions.id := next_uuid d; Questions.interview_id := iid;
            Questions.question_text := text; Questions.question_order := ord;
            Questions.asked_at := t |}.
Proof.
  unfold insert_question.
  destruct (existsb _ _); [|discriminate].
  intros H; injection H as <- <-; cbn; auto.
Qed.

Lemma insert_answer_frame qid text fb sc t d d' a :
  insert_answer qid text fb sc t d = Some (d', a) ->
  interviews d' = interviews d /\ questions d' = questions d
  /\ answers d' = answers d ++ [a]
  /\ next_uuid d' = S (next_uuid d)
  /\ a = {| Answers.id := next_uuid d; Answers.question_id := qid;
            Answers.answer_text := text; Answers.ai_feedback := Some fb;
            Answers.score := Some sc; Answers.created_at := t |}.
Proof.
  unfold insert_answer.
  destruct (existsb _ _); [|discriminate].
  intros H; injection H as <- <-; cbn; auto.
Qed.

Lemma generateNextQuestion_keeps e iv h w :
  let w' := generateNextQuestion e iv h w in
  interviews (db w') = interviews (db w)
  /\ answers (db w') = answers (db w)
  /\ qaHistory (session w') = qaHistory (session w)
  /\ userAnswer (session w') = userAnswer (session w)
  /\ interview (session w') = interview (session w)
  /\ route w' = route w.
Proof.
  unfold generateNextQuestion.
  destruct (invoke e _); cbn; auto 10.
  destruct (insert_question_ok e); cbn; auto 10.
  destruct (insert_question _ _ _ _ _) as [[d' q]|] eqn:E; cbn; auto 10.
  apply insert_question_frame in E as (-> & -> & _); auto 10.
Qed.

Lemma generateFinalFeedback_keeps e iv h w :
  let w' := generateFinalFeedback e iv h w in
  questions (db w') = questions (db w)
  /\ answers (db w') = answers (db w)
  /\ next_uuid (db w') = next_uuid (db w)
  /\ session w' = session (setIsGenerating false w).
Proof.
  unfold generateFinalFeedback.
  destruct (invoke e _); cbn; auto.
  destruct (update_interview_ok e); cbn; auto.
Qed.

End Frames.

(** ** Submitting an answer *)

Section Submit.

Context {J : JSON}.

Lemma existsb_question_id qid d :
  In qid (map Questions.id (questions d)) ->
  existsb (fun q => Questions.id q =? qid) (questions d) = true.
Proof.
  intros H. apply in_map_iff in H as (q & <- & Hq).
  apply existsb_exists. exists q. split; [assumption | apply Nat.eqb_refl].
Qed.

Lemma truthy_string_trim s :
  Js.trim s <> "" -> negb (Js.truthy_string (Js.trim s)) = false.
Proof. destruct (Js.trim s); [congruence | reflexivity]. Qed.

(** The path of [handleSubmitAnswer] on which nothing fails, up to the call
    it ends with. *)
Lemma handleSubmitAnswer_success e w iv qid raw :
  interview (session w) = Some iv ->
  Js.trim (userAnswer (session w)) <> "" ->
  currentQuestionId (session w) = Some qid ->
  In qid (map Questions.id (questions (db w))) ->
  invoke e (evaluate_answer_body iv (currentQuestion (session w))
              (userAnswer (session w))) = InvokeData raw ->
  insert_answer_ok e = true ->
  let history := qaHistory (session w) ++ [recorded_turn w qid raw] in
  let w1 :=
    setCurrentQuestion ""
      (setUserAnswer ""
         (setQaHistory history
            (set_db (answer_stored (sent_answer e w qid raw) (db w))
               (setIsSubmitting true w)))) in
  handleSubmitAnswer e w =
  setIsSubmitting false
    (if (Interviews.total_questions iv <=? Z.of_nat (length history))%Z
     then generateFinalFeedback e iv history w1
     else generateNextQuestion e iv history w1).
Proof.
  intros Hiv Hans Hqid Hin Hinv Hok.
  unfold handleSubmitAnswer.
  rewrite Hiv, (truthy_string_trim _ Hans), Hinv, Hqid, Hok.
  cbn [db setIsSubmitting set_session].
  unfold insert_answer. rewrite (existsb_question_id _ _ Hin).
  reflexivity.
Qed.

(** Whatever the call at the end does, the answer and the turn stay. *)
Lemma handleSubmitAnswer_persists e w iv qid raw :
  interview (session w) = Some iv ->
  Js.trim (userAnswer (session w)) <> "" ->
  currentQuestionId (session w) = Some qid ->
  In qid (map Questions.id (questions (db w))) ->
  invoke e (evaluate_answer_body iv (currentQuestion (session w))
              (userAnswer (session w))) = InvokeData raw ->
  insert_answer_ok e = true ->
  let w' := handleSubmitAnswer e w in
  answers (db w') = answers (db w) ++ [sent_answer e w qid raw]
  /\ qaHistory (session w') = qaHistory (session w) ++ [recorded_turn w qid raw]
  /\ userAnswer (session w') = "".
Proof.
  intros Hiv Hans Hqid Hin Hinv Hok.
  cbv zeta. rewrite (handleSubmitAnswer_success e w iv qid raw) by assumption.
  cbv zeta.
  destruct (_ <=? _)%Z.
  - destruct (generateFinalFeedback_keeps e iv
      (qaHistory (session w) ++ [recorded_turn w qid raw])
      (setCurrentQuestion ""
        (setUserAnswer ""
           (setQaHistory (qaHistory (session w) ++ [recorded_turn w qid raw])
              (set_db (answer_stored (sent_answer e w qid raw) (db w))
                 (setIsSubmitting true w)))))) as (_ & Ha & _ & Hs).
    cbn [db setIsSubmitting set_session session]. rewrite Ha, Hs. cbn. auto.
  - destruct (generateNextQuestion_keeps e iv
      (qaHistory (session w) ++ [recorded_turn w qid raw])
      (setCurrentQuestion ""
        (setUserAnswer ""
           (setQaHistory (qaHistory (session w) ++ [recorded_turn w qid raw])
              (set_db (answer_stored (sent_answer e w qid raw) (db w))
                 (setIsSubmitting true w)))))) as (_ & Ha & Hh & Hu & _).
    cbn [db setIsSubmitting set_session session qaHistory userAnswer].
    rewrite Ha, Hh, Hu. cbn. auto.
Qed.

(** C3.  When the text returned for [evaluate_answer] is no JSON,
    [handleSubmitAnswer] still goes through: the store gains one answer
    whose score is 5 and whose feedback is that text, character for
    character, and the turn joins the history with the same two values. *)
Theorem malformed_evaluation_falls_back e w iv qid raw :
  interview (session w) = Some iv ->
  Js.trim (userAnswer (session w)) <> "" ->
  currentQuestionId (session w) = Some qid ->
  In qid (map Questions.id (questions (db w))) ->
  invoke e (evaluate_answer_body iv (currentQuestion (session w))
              (userAnswer (session w))) = InvokeData raw ->
  parse_evaluation raw = Js.Throws ->
  insert_answer_ok e = true ->
  let w' := handleSubmitAnswer e w in
  answers (db w') =
    answers (db w) ++
    [ {| Answers.id := next_uuid (db w);
         Answers.question_id := qid;
         Answers.answer_text := userAnswer (session w);
         Answers.ai_feedback := Some raw;
         Answers.score := Some 5%Q;
         Answers.created_at := now e |} ]
  /\ qaHistory (session w') =
       qaHistory (session w) ++
       [ {| question := currentQuestion (session w);
            questionId := qid;
            answer := userAnswer (session w);
            answerId := Some (next_uuid (db w));
            feedback := Some raw;
            score := Some 5%Q |} ]
  /\ userAnswer (session w') = "".
Proof.
  intros Hiv Hans Hqid Hin Hinv Hparse Hok.
  pose proof (handleSubmitAnswer_persists e w iv qid raw Hiv Hans Hqid Hin Hinv Hok) as H.
  unfold sent_answer, recorded_turn, evaluation_feedback, evaluation_score in H.
  rewrite Hparse in H. exact H.
Qed.

End Submit.

(** ** Finishing the interview *)

Section Finalize.

Context {J : JSON}.

Lemma generateFinalFeedback_failure e iv h w :
  invoke e (generate_feedback_body iv h) = InvokeError ->
  generateFinalFeedback e iv h w =
  setIsGenerating false
    (toast (error_toast "Failed to complete interview. Please try again.")
       (setIsGenerating true w)).
Proof. intros Hinv. unfold generateFinalFeedback. rewrite Hinv. reflexivity. Qed.

(** The store after [generateFinalFeedback] is a function of the store
    before, the arguments and the outside world. *)
Lemma generateFinalFeedback_db e iv h w :
  db (generateFinalFeedback e iv h w) =
  match invoke e (generate_feedback_body iv h) with
  | InvokeData raw =>
      if update_interview_ok e
      then update_interview (Interviews.id iv) (final_overallScore raw h)
             (final_strengths raw) (final_improvements raw) (now e) (db w)
      else db w
  | InvokeError => db w
  end.
Proof.
  unfold generateFinalFeedback.
  destruct (invoke e _); [reflexivity|].
  destruct (update_interview_ok e); reflexivity.
Qed.

Lemma filter_id_map_completed id sc st im t l :
  filter (fun r => Interviews.id r =? id)
    (map (fun r => if Interviews.id r =? id then set_completed sc st im t r else r) l)
  = map (set_completed sc st im t) (filter (fun r => Interviews.id r =? id) l).
Proof.
  induction l as [|r l IH]; [reflexivity|].
  cbn [map filter].
  destruct (Interviews.id r =? id) eqn:E; cbn [Interviews.id set_completed];
    rewrite E; cbn [map]; rewrite IH; reflexivity.
Qed.

(** Reading the interview back after the update. *)
Lemma select_interview_update id sc st im t d r :
  select_interview id d = Some r ->
  select_interview id (update_interview id sc st im t d)
  = Some (set_completed sc st im t r).
Proof.
  unfold select_interview, update_interview. cbn [interviews].
  rewrite filter_id_map_completed.
  destruct (filter _ (interviews d)) as [|x [|y l]]; try discriminate.
  intros [= ->]. reflexivity.
Qed.

End Finalize.

(** ** Parsed payloads *)

Section Parsed.

Context {J : JSON}.


End Parsed.

(** ** The fallback score *)

Section Fallback.

Context {J : JSON}.




(** [Math.round(x * 10) / 10] is the multiple of one tenth nearest to [x],
    the upper one when two are equally near. *)
Lemma round_to_tenth_nearest avg :
  exists k : Z,
    (round_to_tenth avg == k # 10)%Q
    /\ (avg - (1 # 20) < round_to_tenth avg)%Q
    /\ (round_to_tenth avg <= avg + (1 # 20))%Q.
Proof.
  exists (Js.Math_round (avg * 10)).
  unfold round_to_tenth, Js.Math_round.
  set (x := (avg * 10 + (1 # 2))%Q).
  pose proof (Qfloor_le x) as Hle.
  pose proof (Qlt_floor x) as Hlt.
  rewrite inject_Z_plus in Hlt. change (inject_Z 1) with 1%Q in Hlt.
  assert (Hr : (Qred (inject_Z (Qfloor x) / 10) == inject_Z (Qfloor x) * (1 # 10))%Q).
  { rewrite Qred_correct. unfold Qdiv. reflexivity. }
  split; [|split].
  - rewrite Hr. unfold Qeq, inject_Z. cbn. lia.
  - rewrite Hr. subst x. lra.
  - rewrite Hr. subst x. lra.
Qed.


End Fallback.

(** ** Failures of the Generation Service *)

Section GenerationFailure.

Context {J : JSON}.

(** C7.  When the Generation Service fails, [handleSubmitAnswer] stores no
    answer and leaves the history, the question on display and the typed
    answer as they were, and [generateFinalFeedback] leaves the store as it
    was (the interview still in progress, every answer in place).  Only a
    notification is added.  The step can then be repeated: the same
    submission with a service that responds stores the answer the first
    attempt would have stored, and finishing again has the effect it would
    have had the first time. *)
Theorem generation_failure_is_retryable :
  (forall e w iv,
      interview (session w) = Some iv ->
      Js.trim (userAnswer (session w)) <> "" ->
      invoke e (evaluate_answer_body iv (currentQuestion (session w))
                  (userAnswer (session w))) = InvokeError ->
      let w' := handleSubmitAnswer e w in
      db w' = db w
      /\ qaHistory (session w') = qaHistory (session w)
      /\ currentQuestion (session w') = currentQuestion (session w)
      /\ currentQuestionId (session w') = currentQuestionId (session w)
      /\ userAnswer (session w') = userAnswer (session w)
      /\ interview (session w') = interview (session w)
      /\ route w' = route w
      /\ toasts w' =
           toasts w ++ [error_toast "Failed to submit answer. Please try again."]
      /\ (forall e2 qid raw,
             currentQuestionId (session w) = Some qid ->
             In qid (map Questions.id (questions (db w))) ->
             invoke e2 (evaluate_answer_body iv (currentQuestion (session w))
                          (userAnswer (session w))) = InvokeData raw ->
             insert_answer_ok e2 = true ->
             answers (db (handleSubmitAnswer e2 w'))
             = answers (db w) ++ [sent_answer e2 w qid raw]))
  /\
  (forall e w iv history,
      invoke e (generate_feedback_body iv history) = InvokeError ->
      let w' := generateFinalFeedback e iv history w in
      db w' = db w
      /\ qaHistory (session w') = qaHistory (session w)
      /\ route w' = route w
      /\ toasts w' =
           toasts w ++ [error_toast "Failed to complete interview. Please try again."]
      /\ (forall e2,
             db (generateFinalFeedback e2 iv history w')
             = db (generateFinalFeedback e2 iv history w))).
Proof.
  split.
  - intros e w iv Hiv Hans Hinv w'.
    assert (Hw' : w' = setIsSubmitting false
                         (toast (error_toast "Failed to submit answer. Please try again.")
                            (setIsSubmitting true w))).
    { subst w'. unfold handleSubmitAnswer.
      rewrite Hiv, (truthy_string_trim _ Hans), Hinv. reflexivity. }
    rewrite Hw'. cbn.
    repeat (split; [reflexivity|]).
    intros e2 qid raw Hqid Hin Hinv2 Hok2.
    set (w2 := setIsSubmitting false _).
    destruct (handleSubmitAnswer_persists e2 w2 iv qid raw) as (Ha & _);
      assumption.
  - intros e w iv history Hinv w'. subst w'.
    rewrite generateFinalFeedback_failure by assumption.
    do 4 (split; [reflexivity|]).
    intros e2. rewrite !generateFinalFeedback_db. reflexivity.
Qed.

End GenerationFailure.

(** ** The edge function *)

(** C8.  For a request that reaches the AI gateway, the handler answers a
    gateway status of 429 with status 429 and the rate-limit message (try
    again in a moment), a gateway status of 402 with status 402 and the
    exhausted-credits message, and every other failure (another status
    outside 200 to 299, or a response without content) with status 500 and
    a generic message.  The handler answers 402 exactly when the gateway
    did, and 429 exactly when the gateway did, so a caller can tell the one
    failure that repeating the request does not cure. *)
Theorem gateway_failures_are_told_apart key0 key gateway req body response :
  method_is_not_options req = true ->
  Proxy.json req = inr body ->
  gateway body = inr response ->
  let r := Proxy.handler (Some (String key0 key)) gateway req in
  (Proxy.gateway_status response = 429 ->
   r = {| Proxy.status := 429;
          Proxy.payload :=
            Proxy.Error "Rate limit exceeded. Please try again in a moment." |})
  /\ (Proxy.gateway_status response = 402 ->
      r = {| Proxy.status := 402;
             Proxy.payload :=
               Proxy.Error "AI credits exhausted. Please add more credits." |})
  /\ (Proxy.ok response = false ->
      Proxy.gateway_status response <> 429 ->
      Proxy.gateway_status response <> 402 ->
      r = {| Proxy.status := 500;
             Proxy.payload :=
               Proxy.Error ("AI gateway error: "
                            ++ Proxy.decimal (Proxy.gateway_status response))%string |})
  /\ (Proxy.ok response = true ->
      Proxy.gateway_json response = inr None
      \/ Proxy.gateway_json response = inr (Some "") ->
      r = {| Proxy.status := 500;
             Proxy.payload := Proxy.Error "No content in AI response" |})
  /\ (Proxy.status r = 402 <-> Proxy.gateway_status response = 402)
  /\ (Proxy.status r = 429 <-> Proxy.gateway_status response = 429).
Proof.
  intros Hm Hj Hg r. subst r. unfold Proxy.handler.
  unfold method_is_not_options in Hm. apply negb_true_iff in Hm.
  rewrite Hm, Hj, Hg.
  unfold Proxy.ok.
  destruct (Proxy.gateway_status response =? 429) eqn:E429.
  { apply Nat.eqb_eq in E429. rewrite E429. cbn [Nat.leb Nat.eqb andb negb].
    repeat split; intros; try reflexivity; try discriminate; try congruence;
      try lia. }
  destruct (Proxy.gateway_status response =? 402) eqn:E402.
  { apply Nat.eqb_eq in E402. rewrite E402. cbn [Nat.leb Nat.eqb andb negb].
    repeat split; intros; try reflexivity; try discriminate; try congruence;
      try lia. }
  apply Nat.eqb_neq in E429, E402.
  destruct ((200 <=? Proxy.gateway_status response)
            && (Proxy.gateway_status response <=? 299)) eqn:Eok; cbn [negb].
  - repeat split; intros; try discriminate; try congruence; try lia.
    + destruct H0 as [-> | ->]; reflexivity.
    + destruct (Proxy.gateway_json response) as [m | [[|c s] |]]; cbn in *; lia.
    + destruct (Proxy.gateway_json response) as [m | [[|c s] |]]; cbn in *; lia.
  - repeat split; intros; try reflexivity; try discriminate; try congruence;
      try (cbn in *; lia).
Qed.

(** ** Invariants of the workflow *)

Arguments generateNextQuestion : simpl never.
Arguments generateFinalFeedback : simpl never.
Arguments handleSubmitAnswer : simpl never.
Arguments fetchInterview : simpl never.
Arguments handleStartInterview : simpl never.
Arguments mount_interview : simpl never.

Section Invariants.

Context {J : JSON}.

Lemma run_invariant (P : World -> Prop) (R : Op -> Prop) :
  (forall o w, R o -> P w -> P (apply_op o w)) ->
  forall ops w, Forall R ops -> P w -> P (run ops w).
Proof.
  intros Hstep ops. unfold run.
  induction ops as [|o ops IH]; intros w HR Hw; [exact Hw|].
  inversion HR; subst. cbn [fold_left]. apply IH; auto.
Qed.

Lemma NoDup_map_injective {A B} (f : A -> B) l a b :
  NoDup (map f l) -> In a l -> In b l -> f a = f b -> a = b.
Proof.
  induction l as [|x l IH]; cbn; [contradiction|].
  intros Hnd Ha Hb Hf. inversion Hnd as [|? ? Hx Hnd']; subst.
  destruct Ha as [-> | Ha], Hb as [-> | Hb]; auto.
  - exfalso. apply Hx. rewrite Hf. apply in_map. exact Hb.
  - exfalso. apply Hx. rewrite <- Hf. apply in_map. exact Ha.
Qed.

Lemma Forall2_map_right {A} (R : A -> A -> Prop) (f : A -> A) l :
  (forall x, In x l -> R x (f x)) -> Forall2 R l (map f l).
Proof.
  induction l as [|x l IH]; cbn; intros H; constructor; auto.
Qed.

Lemma Forall2_refl_on {A} (R : A -> A -> Prop) l :
  (forall x, R x x) -> Forall2 R l l.
Proof. intros H. induction l; constructor; auto. Qed.

Lemma table_step_refl d d' :
  interviews d' = interviews d -> table_step d d'.
Proof.
  intros H. exists (interviews d), []. rewrite app_nil_r. split; [exact H|].
  apply Forall2_refl_on. intros x. left. reflexivity.
Qed.

Lemma row_step_trans r1 r2 r3 : row_step r1 r2 -> row_step r2 r3 -> row_step r1 r3.
Proof.
  intros [-> | (Hn & Hc & Hs)] [-> | (Hn' & Hc' & Hs')].
  - left; reflexivity.
  - right; auto.
  - right; auto.
  - exfalso. destruct Hc as (Hc & _), Hn' as (Hn' & _). congruence.
Qed.

Lemma table_step_trans d1 d2 d3 :
  table_step d1 d2 -> table_step d2 d3 -> table_step d1 d3.
Proof.
  intros (rows2 & extra2 & E2 & F2) (rows3 & extra3 & E3 & F3).
  rewrite E2 in F3.
  apply Forall2_app_inv_l in F3 as (l1 & l2 & F31 & F32 & ->).
  exists l1, (l2 ++ extra3). split.
  - rewrite E3, app_assoc. reflexivity.
  - clear - F2 F31. revert l1 F31.
    induction F2 as [|a b la lb Hab F2 IH]; intros l1 F31; inversion F31; subst;
      constructor; eauto using row_step_trans.
Qed.

Lemma store_ok_same_interviews d d' :
  interviews d' = interviews d -> next_uuid d <= next_uuid d' ->
  store_ok d -> store_ok d'.
Proof.
  intros Hi Hn [H1 H2 H3]. split; rewrite Hi; auto.
  eapply Forall_impl; [|exact H2]. cbn. intros; lia.
Qed.

Lemma select_interview_in id d r :
  select_interview id d = Some r -> In r (interviews d) /\ Interviews.id r = id.
Proof.
  unfold select_interview.
  destruct (filter _ _) as [|x [|y l]] eqn:E; try discriminate.
  intros [= ->].
  assert (H : In r (filter (fun r => Interviews.id r =? id) (interviews d)))
    by (rewrite E; left; reflexivity).
  apply filter_In in H as (H & Hid). apply Nat.eqb_eq in Hid. auto.
Qed.

Lemma final_overallScore_some raw history :
  history <> [] -> final_overallScore raw history <> None.
Proof.
  intros Hne. unfold final_overallScore.
  destruct (parse_feedback raw); try discriminate;
    destruct history; [congruence | discriminate | congruence | discriminate].
Qed.

(** Completing a row of a well-formed store that is not yet completed. *)
Lemma store_ok_update d iv sc st im t :
  store_ok d -> In iv (interviews d) -> Interviews.status iv <> completed ->
  sc <> None ->
  store_ok (update_interview (Interviews.id iv) sc st im t d)
  /\ table_step d (update_interview (Interviews.id iv) sc st im t d).
Proof.
  intros [H1 H2 H3] Hin Hst Hsc.
  assert (Hrow : forall r, In r (interviews d) ->
            (Interviews.id r =? Interviews.id iv) = true -> r = iv).
  { intros r Hr E. apply Nat.eqb_eq in E.
    eapply NoDup_map_injective; eauto. }
  assert (Hiv : not_completed iv).
  { rewrite Forall_forall in H3. destruct (H3 iv Hin) as ([Hn | Hc] & _); auto.
    destruct Hc as (Hc & _). contradiction. }
  split; [split|]; cbn [interviews next_uuid update_interview].
  - rewrite map_map.
    erewrite map_ext; [exact H1|].
    intros r. destruct (_ =? _); reflexivity.
  - rewrite Forall_map. eapply Forall_impl; [|exact H2].
    intros r Hr. destruct (_ =? _); exact Hr.
  - rewrite Forall_map. rewrite Forall_forall in H3 |- *.
    intros r Hr. destruct (H3 r Hr) as (Hs & Hf).
    destruct (_ =? _); [|auto].
    split; [|exact Hf].
    right. unfold is_completed. cbn. repeat split; congruence.
  - exists (map (fun r => if Interviews.id r =? Interviews.id iv
                          then set_completed sc st im t r else r) (interviews d)), [].
    rewrite app_nil_r. split; [reflexivity|].
    apply Forall2_map_right. intros r Hr.
    destruct (Interviews.id r =? Interviews.id iv) eqn:E; [|left; reflexivity].
    rewrite (Hrow r Hr E). right. split; [exact Hiv|]. split.
    + unfold is_completed. cbn. repeat split; congruence.
    + unfold same_configuration. cbn. repeat split.
Qed.

Lemma generateNextQuestion_effect e iv h w :
  let w' := generateNextQuestion e iv h w in
  interviews (db w') = interviews (db w)
  /\ next_uuid (db w) <= next_uuid (db w')
  /\ route w' = route w
  /\ interview (session w') = interview (session w)
  /\ setup w' = setup w.
Proof.
  unfold generateNextQuestion.
  destruct (invoke e _); cbn; auto.
  destruct (insert_question_ok e); cbn; auto.
  destruct (insert_question _ _ _ _ _) as [[d' q]|] eqn:E; cbn; auto.
  apply insert_question_frame in E as (-> & _ & _ & -> & _). auto.
Qed.

Lemma generateFinalFeedback_effect e iv h w :
  let w' := generateFinalFeedback e iv h w in
  setup w' = setup w
  /\ interview (session w') = interview (session w)
  /\ ((db w' = db w /\ route w' = route w)
      \/ (exists raw,
            db w' = update_interview (Interviews.id iv) (final_overallScore raw h)
                      (final_strengths raw) (final_improvements raw) (now e) (db w)
            /\ route w' = RouteResults (Interviews.id iv))).
Proof.
  unfold generateFinalFeedback.
  destruct (invoke e _) as [|raw]; cbn; auto.
  destruct (update_interview_ok e); cbn; auto.
  split; [reflexivity|]. split; [reflexivity|]. right. exists raw. auto.
Qed.

(** [generateNextQuestion] on a well-formed store. *)
Lemma generateNextQuestion_ok e iv h w :
  store_ok (db w) ->
  let w' := generateNextQuestion e iv h w in
  store_ok (db w') /\ table_step (db w) (db w').
Proof.
  intros Hs w'.
  destruct (generateNextQuestion_effect e iv h w) as (Hi & Hn & _).
  split.
  - eapply store_ok_same_interviews; eauto.
  - apply table_step_refl. exact Hi.
Qed.

(** [generateFinalFeedback] on a well-formed store, for an interview of the
    store that is not completed and a history that is not empty. *)
Lemma generateFinalFeedback_ok e iv h w :
  store_ok (db w) -> In iv (interviews (db w)) ->
  Interviews.status iv <> completed -> h <> [] ->
  let w' := generateFinalFeedback e iv h w in
  store_ok (db w') /\ table_step (db w) (db w').
Proof.
  intros Hs Hin Hst Hne w'.
  destruct (generateFinalFeedback_effect e iv h w) as (_ & _ & [(Hd & Hr) | (raw & Hd & Hr)]);
    fold w' in Hd, Hr.
  - rewrite Hd. split; [exact Hs|]. apply table_step_refl; reflexivity.
  - destruct (store_ok_update (db w) iv (final_overallScore raw h) (final_strengths raw)
                (final_improvements raw) (now e) Hs Hin Hst
                (final_overallScore_some raw h Hne)) as (H1 & H2).
    rewrite Hd. split; [exact H1 | exact H2].
Qed.

Lemma generateNextQuestion_on_display e iv h w :
  on_display w -> on_display (generateNextQuestion e iv h w).
Proof.
  intros H id iv' Hr Hi.
  destruct (generateNextQuestion_effect e iv h w) as (Hint & _ & Hroute & Hsess & _).
  rewrite Hint. rewrite Hroute in Hr. rewrite Hsess in Hi. eauto.
Qed.

Lemma generateFinalFeedback_on_display e iv h w :
  on_display w -> on_display (generateFinalFeedback e iv h w).
Proof.
  intros H id iv' Hr Hi.
  destruct (generateFinalFeedback_effect e iv h w)
    as (_ & Hsess & [(Hd & Hroute) | (raw & Hd & Hroute)]).
  - rewrite Hd. rewrite Hroute in Hr. rewrite Hsess in Hi. eauto.
  - rewrite Hroute in Hr. discriminate.
Qed.

(** [handleSubmitAnswer] on a well-formed store. *)
Lemma handleSubmitAnswer_ok e w id :
  store_ok (db w) -> on_display w -> route w = RouteInterview id ->
  let w' := handleSubmitAnswer e w in
  store_ok (db w') /\ table_step (db w) (db w') /\ on_display w'
  /\ setup w' = setup w.
Proof.
  intros Hs Hd Hroute. cbv zeta. unfold handleSubmitAnswer.
  destruct (interview (session w)) as [iv|] eqn:Hiv;
    [|split; [exact Hs|]; split; [apply table_step_refl; reflexivity | auto]].
  destruct (Hd id iv Hroute Hiv) as (Hin & Hst).
  destruct (negb _);
    [split; [exact Hs|]; split; [apply table_step_refl; reflexivity | auto]|].
  assert (Hkeep : forall t,
    let w1 := setIsSubmitting false (toast t (setIsSubmitting true w)) in
    store_ok (db w1) /\ table_step (db w) (db w1) /\ on_display w1
    /\ setup w1 = setup w).
  { intros t. cbn. split; [exact Hs|]. split; [apply table_step_refl; reflexivity|].
    split; [|reflexivity]. intros id' iv' Hr' Hi'. cbn in *. eauto. }
  destruct (invoke e _) as [|raw]; [apply Hkeep|].
  destruct (currentQuestionId (session w)) as [qid|]; [|apply Hkeep].
  destruct (insert_answer_ok e); [|apply Hkeep].
  cbn [db setIsSubmitting set_session].
  destruct (insert_answer _ _ _ _ _ _) as [[d' a]|] eqn:E; [|apply Hkeep].
  apply insert_answer_frame in E as (Ei & _ & _ & En & _).
  cbn [option_map].
  set (history := qaHistory (session w) ++ _).
  set (w1 := setCurrentQuestion "" _).
  assert (Hs1 : store_ok (db w1)).
  { subst w1. cbn. eapply store_ok_same_interviews; [exact Ei | lia | exact Hs]. }
  assert (Hd1 : on_display w1).
  { subst w1. intros id' iv' Hr' Hi'. cbn in *. rewrite Ei. eauto. }
  assert (Hin1 : In iv (interviews (db w1))) by (subst w1; cbn; rewrite Ei; exact Hin).
  assert (Ht1 : table_step (db w) (db w1))
    by (apply table_step_refl; subst w1; cbn; exact Ei).
  assert (Hne : history <> []) by (subst history; intros H; destruct (qaHistory (session w)); discriminate).
  destruct (_ <=? _)%Z.
  - destruct (generateFinalFeedback_ok e iv history w1 Hs1 Hin1 Hst Hne) as (H1 & H2).
    pose proof (generateFinalFeedback_on_display e iv history w1 Hd1) as H3.
    destruct (generateFinalFeedback_effect e iv history w1) as (H4 & _).
    cbn [db setIsSubmitting set_session setup].
    split; [exact H1|]. split; [eapply table_step_trans; eauto|].
    split; [|rewrite H4; reflexivity].
    intros id' iv' Hr' Hi'. cbn in *. eauto.
  - destruct (generateNextQuestion_ok e iv history w1 Hs1) as (H1 & H2).
    pose proof (generateNextQuestion_on_display e iv history w1 Hd1) as H3.
    destruct (generateNextQuestion_effect e iv history w1) as (_ & _ & _ & _ & H4).
    cbn [db setIsSubmitting set_session setup].
    split; [exact H1|]. split; [eapply table_step_trans; eauto|].
    split; [|rewrite H4; reflexivity].
    intros id' iv' Hr' Hi'. cbn in *. eauto.
Qed.

Lemma interview_status_eqb_completed st :
  interview_status_eqb st completed = false -> st <> completed.
Proof. destruct st; cbn; congruence. Qed.

(** Opening the interview page on a well-formed store. *)
Lemma mount_interview_ok e id w :
  store_ok (db w) ->
  let w' := mount_interview e id w in
  store_ok (db w') /\ table_step (db w) (db w') /\ on_display w'
  /\ setup w' = setup w.
Proof.
  intros Hs. cbv zeta. unfold mount_interview, fetchInterview.
  set (w0 := set_session initial_session (navigate (RouteInterview id) w)).
  assert (Hsame : forall w1 : World,
    db w1 = db w -> setup w1 = setup w ->
    (forall x, route w1 <> RouteInterview x) ->
    store_ok (db w1) /\ table_step (db w) (db w1) /\ on_display w1
    /\ setup w1 = setup w).
  { intros w1 Hd Hset Hr. rewrite Hd. split; [exact Hs|].
    split; [apply table_step_refl; reflexivity|]. split; [|exact Hset].
    intros x iv Hx. destruct (Hr x Hx). }
  destruct (if select_interview_ok e then select_interview id (db w0) else None)
    as [iv|] eqn:Hsel; [|apply Hsame; cbn; congruence].
  destruct (interview_status_eqb (Interviews.status iv) completed) eqn:Hst;
    [apply Hsame; cbn; congruence|].
  apply interview_status_eqb_completed in Hst.
  assert (Hin : In iv (interviews (db w))).
  { destruct (select_interview_ok e); [|discriminate].
    apply select_interview_in in Hsel as (Hin & _). exact Hin. }
  set (w1 := setInterview (Some iv) w0).
  assert (Hd1 : forall w2 : World,
    db w2 = db w -> interview (session w2) = Some iv -> on_display w2).
  { intros w2 Hd Hi x iv' _ Hi'. rewrite Hd. rewrite Hi in Hi'.
    injection Hi' as <-. auto. }
  assert (Hnext : forall h (w2 : World),
    db w2 = db w -> interview (session w2) = Some iv -> setup w2 = setup w ->
    let w3 := setIsLoading false (generateNextQuestion e iv h w2) in
    store_ok (db w3) /\ table_step (db w) (db w3) /\ on_display w3
    /\ setup w3 = setup w).
  { intros h w2 Hd Hi Hset.
    assert (Hs2 : store_ok (db w2)) by (rewrite Hd; exact Hs).
    destruct (generateNextQuestion_ok e iv h w2 Hs2) as (H1 & H2).
    pose proof (generateNextQuestion_on_display e iv h w2 (Hd1 w2 Hd Hi)) as H3.
    destruct (generateNextQuestion_effect e iv h w2) as (_ & _ & _ & _ & H4).
    rewrite Hd in H2. cbn. split; [exact H1|]. split; [exact H2|].
    split; [|congruence].
    intros x iv' Hr' Hi'. cbn in *. eauto. }
  destruct (if select_questions_ok e then Some (select_questions id (db w1)) else None)
    as [[|first rest]|]; try (apply Hnext; reflexivity).
  set (questionsData := first :: rest).
  destruct (snd (last questionsData first)) as [|a ans].
  - cbn. split; [exact Hs|]. split; [apply table_step_refl; reflexivity|].
    split; [|reflexivity].
    apply Hd1; reflexivity.
  - destruct (_ <? _)%Z; [apply Hnext; reflexivity|].
    set (w2 := setQuestionNumber _ _).
    assert (Hs2 : store_ok (db w2)) by exact Hs.
    assert (Hne : map existing_qa questionsData <> []) by discriminate.
    destruct (generateFinalFeedback_ok e iv _ w2 Hs2 Hin Hst Hne) as (H1 & H2).
    pose proof (generateFinalFeedback_on_display e iv (map existing_qa questionsData) w2
                  (Hd1 w2 eq_refl eq_refl)) as H3.
    destruct (generateFinalFeedback_effect e iv (map existing_qa questionsData) w2)
      as (H4 & _).
    cbn [db setup setIsLoading set_session].
    split; [exact H1|]. split; [exact H2|]. split; [|rewrite H4; reflexivity].
    intros x iv' Hr' Hi'. apply (H3 x iv' Hr' Hi').
Qed.

(** The form keeps to the counts on offer. *)
Lemma on_event_questionCount ev s :
  In (Setup.questionCount s) Setup.questionCounts ->
  In (Setup.questionCount (Setup.on_event ev s)) Setup.questionCounts.
Proof.
  intros H. destruct ev as [i| |text|i|i|i]; cbn [Setup.on_event].
  - destruct (nth_error Setup.jobRoles i); exact H.
  - exact H.
  - destruct (Setup.jobRole s =? "custom")%string; exact H.
  - destruct (nth_error Setup.interviewTypes i); exact H.
  - destruct (nth_error Setup.difficultyLevels i); exact H.
  - destruct (nth_error Setup.questionCounts i) eqn:E; [|exact H].
    apply nth_error_In in E. exact E.
Qed.

Lemma handleStartInterview_cases e w :
  let w' := handleStartInterview e w in
  (db w' = db w /\ route w' = route w
   /\ (Js.trim (finalRole (setup w)) = "" \/ insert_interview_ok e = false))
  \/ (Js.trim (finalRole (setup w)) <> "" /\ insert_interview_ok e = true
      /\ interviews (db w') = interviews (db w) ++ [created_row e w]
      /\ questions (db w') = questions (db w)
      /\ answers (db w') = answers (db w)
      /\ next_uuid (db w') = S (next_uuid (db w))
      /\ route w' = RouteInterview (next_uuid (db w))).
Proof.
  cbv zeta. unfold handleStartInterview.
  destruct (Js.trim (finalRole (setup w))) eqn:Etrim; cbn [Js.truthy_string negb].
  - left. cbn. auto.
  - destruct (insert_interview_ok e); cbn.
    + right. repeat split; congruence.
    + left. auto.
Qed.

Lemma handleStartInterview_setup e w :
  Setup.questionCount (setup (handleStartInterview e w)) = Setup.questionCount (setup w).
Proof.
  unfold handleStartInterview.
  destruct (negb _); [reflexivity|].
  destruct (insert_interview_ok e); reflexivity.
Qed.

Lemma handleStartInterview_ok e w :
  store_ok (db w) -> In (Setup.questionCount (setup w)) Setup.questionCounts ->
  let w' := handleStartInterview e w in
  store_ok (db w') /\ table_step (db w) (db w').
Proof.
  intros Hs Hq. cbv zeta.
  destruct (handleStartInterview_cases e w)
    as [(Hd & _) | (Hrole & _ & Hi & _ & _ & Hn & _)].
  - rewrite Hd. split; [exact Hs | apply table_step_refl; reflexivity].
  - destruct Hs as [H1 H2 H3]. split; [split|].
    + rewrite Hi, map_app. cbn [map created_row Interviews.id].
      apply NoDup_app; [exact H1 | repeat constructor; cbn; tauto |].
      intros x Hx [<- | []]. apply in_map_iff in Hx as (r & Hr & Hin).
      rewrite Forall_forall in H2. specialize (H2 r Hin). lia.
    + rewrite Hi, Hn. apply Forall_app. split.
      * eapply Forall_impl; [|exact H2]. cbn. intros; lia.
      * constructor; [cbn; lia | constructor].
    + rewrite Hi. apply Forall_app. split; [exact H3|].
      constructor; [|constructor].
      split; [left; repeat split | split; [exact Hq | exact Hrole]].
    + exists (interviews (db w)), [created_row e w]. split; [exact Hi|].
      apply Forall2_refl_on. intros x. left. reflexivity.
Qed.

(** Every step keeps the store well formed, the pages consistent with it,
    and changes the interview table only by adding rows or completing
    one. *)
Lemma apply_op_ok o w :
  store_ok (db w) -> page_ok w ->
  let w' := apply_op o w in
  store_ok (db w') /\ page_ok w' /\ table_step (db w) (db w').
Proof.
  intros Hs (Hq & Hd). cbv zeta.
  assert (Hstay : forall w1 : World,
    db w1 = db w -> In (Setup.questionCount (setup w1)) Setup.questionCounts ->
    on_display w1 ->
    store_ok (db w1) /\ page_ok w1 /\ table_step (db w) (db w1)).
  { intros w1 Hd1 Hq1 Hon. rewrite Hd1. split; [exact Hs|]. split; [split; assumption|].
    apply table_step_refl. reflexivity. }
  destruct o as [r e | ev | e e' | text | e]; cbn [apply_op].
  - destruct r as [ | | | id | id];
      try (apply Hstay; [reflexivity | cbn; auto | intros x iv Hx; discriminate Hx]).
    destruct (mount_interview_ok e id w Hs) as (H1 & H2 & H3 & H4).
    split; [exact H1|]. split; [|exact H2]. split; [rewrite H4; exact Hq | exact H3].
  - destruct (route w) eqn:Hr; try (apply Hstay; [reflexivity | exact Hq | exact Hd]).
    apply Hstay; [reflexivity | apply on_event_questionCount; exact Hq |].
    intros x iv Hx. cbn in Hx. congruence.
  - destruct (route w) eqn:Hr; try (apply Hstay; [reflexivity | exact Hq | exact Hd]).
    destruct (handleStartInterview_ok e w Hs Hq) as (H1 & H2).
    pose proof (handleStartInterview_setup e w) as H3.
    destruct (handleStartInterview_cases e w) as [(_ & Hroute & _) | (_ & _ & _ & _ & _ & _ & Hroute)].
    + rewrite Hroute, Hr. split; [exact H1|]. split; [|exact H2].
      split; [rewrite H3; exact Hq|].
      intros x iv Hx. congruence.
    + rewrite Hroute.
      destruct (mount_interview_ok e' (next_uuid (db w)) (handleStartInterview e w) H1)
        as (H4 & H5 & H6 & H7).
      split; [exact H4|]. split; [|eapply table_step_trans; eauto].
      split; [rewrite H7, H3; exact Hq | exact H6].
  - destruct (input_area_rendered w); apply Hstay; try reflexivity; assumption.
  - destruct (input_area_rendered w) eqn:Hin;
      [|apply Hstay; [reflexivity | exact Hq | exact Hd]].
    unfold input_area_rendered in Hin.
    destruct (route w) as [ | | | id | id] eqn:Hr; try discriminate.
    destruct (handleSubmitAnswer_ok e w id Hs Hd Hr) as (H1 & H2 & H3 & H4).
    split; [exact H1|]. split; [|exact H2]. split; [rewrite H4; exact Hq | exact H3].
Qed.

Lemma initial_world_ok : store_ok (db initial_world) /\ page_ok initial_world.
Proof.
  split; [split; cbn; constructor|].
  split; [cbn; auto|]. intros x iv Hx. discriminate Hx.
Qed.

Lemma reachable_ok ops :
  store_ok (db (run ops initial_world)) /\ page_ok (run ops initial_world).
Proof.
  apply (run_invariant (fun w => store_ok (db w) /\ page_ok w) (fun _ => True)).
  - intros o w _ (Hs & Hp). destruct (apply_op_ok o w Hs Hp) as (H1 & H2 & _). auto.
  - apply Forall_forall. auto.
  - apply initial_world_ok.
Qed.

End Invariants.

(** ** Resuming *)

Section Resume.

Context {J : JSON}.




End Resume.

(** ** When the questions cannot be read *)

Section Defect.

Context {J : JSON}.

(** C5, evaluated where the code departs from it.  [fetchInterview] throws
    on an error of the interview read, but it does not look at the error of
    the questions read: without data it takes the branch for an interview
    that has no question yet.  So a reload during which the questions
    cannot be read stores a second question of order 1, whereas a reload
    during which the interview cannot be read stores nothing. *)
Theorem unread_questions_duplicate_an_order :
  question_orders 0 (db (run start_ops initial_world)) = [1%Z]
  /\ question_orders 0 (db (run (start_ops ++ blind_reload) initial_world)) = [1%Z; 1%Z]
  /\ db (run (start_ops ++ [Visit (RouteInterview 0) (interview_unreadable prose_env)])
           initial_world)
     = db (run start_ops initial_world).
Proof. repeat split; vm_compute; reflexivity. Qed.

(** C2, evaluated where the code departs from it.  After the reload above
    the page counts the turns from zero, so five more answers are taken
    before the interview is completed: it ends completed with six answered
    questions for a budget of five. *)
Theorem unread_questions_overrun_the_total :
  let w := run (start_ops ++ turn_ops ++ blind_reload
                ++ turn_ops ++ turn_ops ++ turn_ops ++ turn_ops ++ turn_ops)
             initial_world in
  option_map Interviews.status (select_interview 0 (db w)) = Some completed
  /\ option_map Interviews.total_questions (select_interview 0 (db w)) = Some 5%Z
  /\ answered_count 0 (db w) = 6
  /\ question_orders 0 (db w) = [1; 1; 2; 2; 3; 4; 5]%Z.
Proof. repeat split; vm_compute; reflexivity. Qed.

End Defect.

(** ** Completion and creation along the workflow *)

Section Reachable.

Context {J : JSON}.



End Reachable.

(** ** Turn taking when the questions can be read *)

Section Sorting.




End Sorting.

Section Tables.












End Tables.

Section Stores.









End Stores.

Section Handlers.

Context {J : JSON}.








End Handlers.

Section InStep.

Context {J : JSON}.








End InStep.


(** ** White space *)

Section WhiteSpace.

Lemma trimStart_blank s : Js.trimStart s = "" <-> blank s = true.
Proof.
  induction s as [|c s IH]; cbn; [tauto|].
  destruct (Js.is_white_space c); cbn; [exact IH|].
  split; discriminate.
Qed.

Lemma trimEnd_blank s : Js.trimEnd s = "" <-> blank s = true.
Proof.
  induction s as [|c s IH]; cbn; [tauto|].
  destruct (Js.trimEnd s) eqn:E.
  - destruct (Js.is_white_space c); cbn; [tauto|]. split; discriminate.
  - split; [discriminate|]. intros H. apply andb_prop in H as (_ & H).
    apply IH in H. discriminate.
Qed.

Lemma blank_trimStart s : blank (Js.trimStart s) = blank s.
Proof.
  induction s as [|c s IH]; cbn; [reflexivity|].
  destruct (Js.is_white_space c) eqn:E; cbn; [exact IH|].
  rewrite E. reflexivity.
Qed.

Lemma trim_blank s : Js.trim s = "" <-> blank s = true.
Proof.
  unfold Js.trim. rewrite trimEnd_blank, blank_trimStart. tauto.
Qed.

Lemma trimStart_starts_black s : starts_black (Js.trimStart s).
Proof.
  induction s as [|c s IH]; cbn; [exact I|].
  destruct (Js.is_white_space c) eqn:E; cbn; assumption.
Qed.

Lemma trimStart_fixed s : starts_black s -> Js.trimStart s = s.
Proof. destruct s as [|c s]; cbn; [reflexivity|]. intros ->. reflexivity. Qed.

Lemma trimEnd_starts_black s : starts_black s -> starts_black (Js.trimEnd s).
Proof.
  destruct s as [|c s]; cbn; [trivial|]. intros H.
  destruct (Js.trimEnd s); [rewrite H|]; cbn; exact H.
Qed.

Lemma trimEnd_cons c s :
  Js.trimEnd (String c s)
  = match Js.trimEnd s with
    | EmptyString => if Js.is_white_space c then EmptyString else String c EmptyString
    | t => String c t
    end.
Proof. reflexivity. Qed.

Lemma trimEnd_idempotent s : Js.trimEnd (Js.trimEnd s) = Js.trimEnd s.
Proof.
  induction s as [|c s IH]; [reflexivity|].
  rewrite trimEnd_cons.
  destruct (Js.trimEnd s) as [|c' t] eqn:E.
  - destruct (Js.is_white_space c) eqn:Ec; [reflexivity|].
    rewrite trimEnd_cons. cbn. rewrite Ec. reflexivity.
  - rewrite trimEnd_cons, IH. reflexivity.
Qed.

Lemma trim_idempotent s : Js.trim (Js.trim s) = Js.trim s.
Proof.
  unfold Js.trim.
  rewrite (trimStart_fixed (Js.trimEnd (Js.trimStart s))).
  - apply trimEnd_idempotent.
  - apply trimEnd_starts_black, trimStart_starts_black.
Qed.

End WhiteSpace.

(** ** Each handler either takes effect or reports *)

Section Outcomes.

Context {J : JSON}.

Lemma blank_check s : negb (Js.truthy_string (Js.trim s)) = blank s.
Proof.
  destruct (blank s) eqn:E.
  - apply trim_blank in E. rewrite E. reflexivity.
  - destruct (Js.trim s) eqn:Et; [|reflexivity].
    apply trim_blank in Et. congruence.
Qed.

Lemma existsb_interview_id id d :
  existsb (fun r => Interviews.id r =? id) (interviews d) = true
  <-> In id (map Interviews.id (interviews d)).
Proof.
  rewrite existsb_exists, in_map_iff. split.
  - intros (r & Hr & E). apply Nat.eqb_eq in E. eauto.
  - intros (r & E & Hr). exists r. split; [exact Hr | apply Nat.eqb_eq; exact E].
Qed.

(** The two outcomes of [generateNextQuestion]. *)
Lemma generateNextQuestion_cases e iv history w :
  let w' := generateNextQuestion e iv history w in
  ((exists raw,
       let q := sent_question e iv history raw (db w) in
       invoke e (generate_question_body iv history) = InvokeData raw
       /\ insert_question_ok e = true
       /\ In (Interviews.id iv) (map Interviews.id (interviews (db w)))
       /\ db w' = question_stored q (db w)
       /\ currentQuestion (session w') = Questions.question_text q
       /\ currentQuestionId (session w') = Some (Questions.id q)
       /\ questionNumber (session w') = length history + 1
       /\ toasts w' = toasts w)
   \/ ((invoke e (generate_question_body iv history) = InvokeError
        \/ insert_question_ok e = false
        \/ ~ In (Interviews.id iv) (map Interviews.id (interviews (db w))))
       /\ db w' = db w
       /\ currentQuestion (session w') = currentQuestion (session w)
       /\ currentQuestionId (session w') = currentQuestionId (session w)
       /\ questionNumber (session w') = questionNumber (session w)
       /\ toasts w' = toasts w ++ [question_failed]))
  /\ qaHistory (session w') = qaHistory (session w)
  /\ userAnswer (session w') = userAnswer (session w)
  /\ interview (session w') = interview (session w)
  /\ isGenerating (session w') = false
  /\ route w' = route w.
Proof.
  cbv zeta. unfold generateNextQuestion.
  destruct (invoke e _) as [|raw] eqn:Hinv.
  { split; [right; cbn; auto 10 | cbn; auto]. }
  destruct (insert_question_ok e) eqn:Hok.
  2:{ split; [right; cbn; auto 10 | cbn; auto]. }
  unfold insert_question. cbn [db setIsGenerating set_session].
  destruct (existsb _ _) eqn:Hex.
  - apply existsb_interview_id in Hex.
    split; [left; exists raw; cbn; auto 10 | cbn; auto].
  - split; [right | cbn; auto].
    split; [|cbn; auto].
    right. right. intros Hin. apply existsb_interview_id in Hin. congruence.
Qed.


(** The outcomes of [handleSubmitAnswer]. *)
Lemma handleSubmitAnswer_cases e w :
  let w' := handleSubmitAnswer e w in
  ((interview (session w) = None \/ blank (userAnswer (session w)) = true) -> w' = w)
  /\ (forall iv,
        interview (session w) = Some iv ->
        blank (userAnswer (session w)) = false ->
        (exists qid raw,
            currentQuestionId (session w) = Some qid
            /\ In qid (map Questions.id (questions (db w)))
            /\ invoke e (evaluate_answer_body iv (currentQuestion (session w))
                           (userAnswer (session w))) = InvokeData raw
            /\ insert_answer_ok e = true
            /\ answers (db w') = answers (db w) ++ [sent_answer e w qid raw]
            /\ qaHistory (session w') = qaHistory (session w) ++ [recorded_turn w qid raw]
            /\ userAnswer (session w') = "")
        \/ (db w' = db w
            /\ session w' = session (setIsSubmitting false w)
            /\ route w' = route w
            /\ toasts w' = toasts w ++ [submit_failed])).
Proof.
  cbv zeta. split.
  - unfold handleSubmitAnswer. intros [H | H].
    + rewrite H. reflexivity.
    + destruct (interview (session w)); [|reflexivity].
      rewrite blank_check, H. reflexivity.
  - intros iv Hiv Hb.
    assert (Hans : Js.trim (userAnswer (session w)) <> "").
    { intros E. apply trim_blank in E. congruence. }
    destruct (invoke e (evaluate_answer_body iv (currentQuestion (session w))
                          (userAnswer (session w)))) as [|raw] eqn:Hinv.
    { right. unfold handleSubmitAnswer. rewrite Hiv, blank_check, Hb, Hinv. cbn. auto. }
    destruct (currentQuestionId (session w)) as [qid|] eqn:Hqid.
    2:{ right. unfold handleSubmitAnswer. rewrite Hiv, blank_check, Hb, Hinv, Hqid. cbn. auto. }
    destruct (insert_answer_ok e) eqn:Hok.
    2:{ right. unfold handleSubmitAnswer.
        rewrite Hiv, blank_check, Hb, Hinv, Hqid, Hok. cbn. auto. }
    destruct (existsb (fun q => Questions.id q =? qid) (questions (db w))) eqn:Hex.
    + assert (Hin : In qid (map Questions.id (questions (db w)))).
      { apply existsb_exists in Hex as (q & Hq & E). apply Nat.eqb_eq in E.
        apply in_map_iff. eauto. }
      left. exists qid, raw. split; [reflexivity|]. split; [exact Hin|].
      split; [reflexivity|]. split; [reflexivity|].
      apply (handleSubmitAnswer_persists e w iv qid raw); assumption.
    + right. unfold handleSubmitAnswer.
      rewrite Hiv, blank_check, Hb, Hinv, Hqid, Hok.
      cbn [db setIsSubmitting set_session]. unfold insert_answer. rewrite Hex.
      cbn. auto.
Qed.


End Outcomes.

(** ** The edge function, whatever the request *)

Section EdgeFunction.

Lemma caught_message message :
  match Proxy.payload (Proxy.caught message) with
  | Proxy.Error m => m <> ""
  | _ => False
  end.
Proof. destruct message; cbn; discriminate. Qed.

(** X4.  Whatever the configuration, the request and the gateway do, the
    handler answers with status 200, 402, 429 or 500.  A body-less answer
    is the answer to OPTIONS.  An answer carrying a result has status 200,
    the result is not empty, and it is the content of a gateway response
    with a status from 200 to 299, obtained with a configured key for a
    body that could be read.  An answer carrying an error never has status
    200 and its message is never empty. *)
Theorem handler_answers_are_well_formed key gateway req :
  let r := Proxy.handler key gateway req in
  In (Proxy.status r) [200; 402; 429; 500]
  /\ match Proxy.payload r with
     | Proxy.Empty => Proxy.method req = "OPTIONS" /\ Proxy.status r = 200
     | Proxy.Result text =>
         Proxy.status r = 200 /\ text <> ""
         /\ Proxy.method req <> "OPTIONS"
         /\ (exists c k, key = Some (String c k))
         /\ (exists body response,
                Proxy.json req = inr body /\ gateway body = inr response
                /\ Proxy.ok response = true
                /\ Proxy.gateway_json response = inr (Some text))
     | Proxy.Error message => message <> "" /\ Proxy.status r <> 200
     end.
Proof.
  cbv zeta. unfold Proxy.handler.
  assert (Hcaught : forall m,
    In (Proxy.status (Proxy.caught m)) [200; 402; 429; 500]
    /\ match Proxy.payload (Proxy.caught m) with
       | Proxy.Empty => Proxy.method req = "OPTIONS" /\ Proxy.status (Proxy.caught m) = 200
       | Proxy.Result text =>
           Proxy.status (Proxy.caught m) = 200 /\ text <> ""
           /\ Proxy.method req <> "OPTIONS"
           /\ (exists c k, key = Some (String c k))
           /\ (exists body response,
                  Proxy.json req = inr body /\ gateway body = inr response
                  /\ Proxy.ok response = true
                  /\ Proxy.gateway_json response = inr (Some text))
       | Proxy.Error message => message <> "" /\ Proxy.status (Proxy.caught m) <> 200
       end).
  { intros m. split; [cbn; tauto|].
    pose proof (caught_message m) as H. cbn in *. split; [exact H | discriminate]. }
  destruct (Proxy.method req =? "OPTIONS")%string eqn:Hm.
  { apply String.eqb_eq in Hm. cbn. tauto. }
  apply String.eqb_neq in Hm.
  destruct key as [[|c k]|]; try apply Hcaught.
  destruct (Proxy.json req) as [m | body] eqn:Hj; [apply Hcaught|].
  destruct (gateway body) as [m | response] eqn:Hg; [apply Hcaught|].
  destruct (Proxy.ok response) eqn:Hok; cbn [negb].
  - destruct (Proxy.gateway_json response) as [m | [[|c' text]|]] eqn:Hc;
      try apply Hcaught.
    cbn. split; [tauto|]. split; [reflexivity|]. split; [discriminate|].
    split; [exact Hm|]. split; [eauto|]. exists body, response. auto.
  - destruct (Proxy.gateway_status response =? 429); [cbn; split; [tauto | split; discriminate]|].
    destruct (Proxy.gateway_status response =? 402); [cbn; split; [tauto | split; discriminate]|].
    apply Hcaught.
Qed.

(** X5.  The handler checks the request before it turns to the gateway: an
    OPTIONS request, a request while no key is configured, and a request
    whose body cannot be read are answered without the gateway, that is,
    with the same answer whatever the gateway would have done.  The checks
    come in this order: OPTIONS is answered with 200 even without a key,
    and a missing key is reported even when the body cannot be read. *)
Theorem requests_are_checked_before_the_gateway key gateway gateway' req :
  (Proxy.method req = "OPTIONS" ->
   Proxy.handler key gateway req = {| Proxy.status := 200; Proxy.payload := Proxy.Empty |})
  /\ (Proxy.method req <> "OPTIONS" -> (key = None \/ key = Some "") ->
      Proxy.handler key gateway req
      = {| Proxy.status := 500;
           Proxy.payload := Proxy.Error "LOVABLE_API_KEY is not configured" |})
  /\ ((Proxy.method req = "OPTIONS" \/ key = None \/ key = Some ""
       \/ exists message, Proxy.json req = inl message) ->
      Proxy.handler key gateway req = Proxy.handler key gateway' req).
Proof.
  unfold Proxy.handler.
  split; [intros ->; reflexivity|].
  split.
  - intros Hm Hk. apply String.eqb_neq in Hm. rewrite Hm.
    destruct Hk as [-> | ->]; reflexivity.
  - intros H.
    destruct (Proxy.method req =? "OPTIONS")%string eqn:Hm; [reflexivity|].
    destruct H as [H | [-> | [-> | (m & H)]]]; try reflexivity.
    + apply String.eqb_eq in H. congruence.
    + rewrite H. destruct key as [[|c k]|]; reflexivity.
Qed.

End EdgeFunction.

(** ** The writes of the workflow *)

Section Writes.

Lemma commits_app l1 l2 d : commits (l1 ++ l2) d = commits l2 (commits l1 d).
Proof. apply fold_left_app. Qed.

Lemma permitted_log_app l1 l2 d :
  permitted_log d (l1 ++ l2) <-> permitted_log d l1 /\ permitted_log (commits l1 d) l2.
Proof.
  revert d. induction l1 as [|x l1 IH]; intros d; cbn; [tauto|].
  rewrite IH. tauto.
Qed.

Lemma store_ok_interview_stored d r :
  store_ok d -> Interviews.id r = next_uuid d -> not_completed r -> from_setup r ->
  store_ok (interview_stored r d).
Proof.
  intros [H1 H2 H3] Hid Hn Hf. split; cbn [interview_stored interviews next_uuid].
  - rewrite map_app. cbn [map].
    apply NoDup_app; [exact H1 | repeat constructor; cbn; tauto |].
    intros x Hx [<- | []]. apply in_map_iff in Hx as (r0 & Hr & Hin).
    rewrite Forall_forall in H2. specialize (H2 r0 Hin). lia.
  - apply Forall_app. split.
    + eapply Forall_impl; [|exact H2]. cbn. intros; lia.
    + constructor; [lia | constructor].
  - apply Forall_app. split; [exact H3|]. constructor; [|constructor]. auto.
Qed.

Lemma NoDup_snoc_fresh {A} (f : A -> nat) l x n :
  NoDup (map f l) -> Forall (fun y => f y < n) l -> f x = n ->
  NoDup (map f (l ++ [x])).
Proof.
  intros Hnd Hlt Hx. rewrite map_app. cbn [map].
  apply NoDup_app; [exact Hnd | repeat constructor; cbn; tauto |].
  intros y Hy [<- | []]. apply in_map_iff in Hy as (z & Hz & Hin).
  rewrite Forall_forall in Hlt. specialize (Hlt z Hin). lia.
Qed.

Lemma Forall_lt_S {A} (f : A -> nat) l n :
  Forall (fun y => f y < n) l -> Forall (fun y => f y < S n) l.
Proof. intros H. eapply Forall_impl; [|exact H]. cbn. intros; lia. Qed.

Lemma Forall_snoc_fresh {A} (f : A -> nat) l x n :
  Forall (fun y => f y < n) l -> f x = n -> Forall (fun y => f y < S n) (l ++ [x]).
Proof.
  intros H Hx. apply Forall_app. split; [apply Forall_lt_S; exact H|].
  constructor; [lia | constructor].
Qed.

Lemma update_interview_ids id sc st im t d :
  map Interviews.id (interviews (update_interview id sc st im t d))
  = map Interviews.id (interviews d).
Proof.
  cbn. rewrite map_map. apply map_ext. intros r. destruct (_ =? _); reflexivity.
Qed.

(** A permitted write keeps the rows of the store hanging together. *)
Lemma permitted_sound d x : rows_sound d -> permitted d x -> rows_sound (commit x d).
Proof.
  intros [Hs Hq1 Hq2 Ha1 Ha2 Hqr Har Hqw Haw] Hp.
  destruct x as [r | q | a | id sc st im t]; cbn [commit permitted] in *.
  - destruct Hp as (Hid & Hn & Hf). split; cbn [interview_stored questions answers next_uuid interviews].
    + apply store_ok_interview_stored; assumption.
    + exact Hq1.
    + apply Forall_lt_S; exact Hq2.
    + exact Ha1.
    + apply Forall_lt_S; exact Ha2.
    + eapply Forall_impl; [|exact Hqr]. cbn. intros q Hq. rewrite map_app.
      apply in_or_app. left. exact Hq.
    + exact Har.
    + exact Hqw.
    + exact Haw.
  - destruct Hp as (Hid & Hw & iv & (Hin & _) & Hiv).
    split; cbn [question_stored questions answers next_uuid interviews].
    + eapply store_ok_same_interviews; [| |exact Hs]; cbn; [reflexivity | lia].
    + apply (NoDup_snoc_fresh Questions.id _ _ (next_uuid d)); assumption.
    + apply Forall_snoc_fresh; assumption.
    + exact Ha1.
    + apply Forall_lt_S; exact Ha2.
    + apply Forall_app. split; [exact Hqr|]. constructor; [|constructor].
      rewrite Hiv. apply in_map. exact Hin.
    + eapply Forall_impl; [|exact Har]. cbn. intros a Ha. rewrite map_app.
      apply in_or_app. left. exact Ha.
    + apply Forall_app. split; [exact Hqw|]. constructor; [exact Hw | constructor].
    + exact Haw.
  - destruct Hp as (Hid & Hw & iv & q & _ & Hq & _ & Hqa).
    split; cbn [answer_stored questions answers next_uuid interviews].
    + eapply store_ok_same_interviews; [| |exact Hs]; cbn; [reflexivity | lia].
    + exact Hq1.
    + apply Forall_lt_S; exact Hq2.
    + apply (NoDup_snoc_fresh Answers.id _ _ (next_uuid d)); assumption.
    + apply Forall_snoc_fresh; assumption.
    + exact Hqr.
    + apply Forall_app. split; [exact Har|]. constructor; [|constructor].
      rewrite Hqa. apply in_map. exact Hq.
    + exact Hqw.
    + apply Forall_app. split; [exact Haw|]. constructor; [exact Hw | constructor].
  - destruct Hp as (Hsc & iv & (Hin & Hst) & <-).
    split; try assumption.
    + apply store_ok_update; assumption.
    + rewrite update_interview_ids. exact Hqr.
Qed.

Lemma permitted_log_sound log : forall d,
  rows_sound d -> permitted_log d log -> rows_sound (commits log d).
Proof.
  induction log as [|x log IH]; intros d Hs Hp; [exact Hs|].
  destruct Hp as (Hx & Hp). cbn. apply IH; [apply permitted_sound; assumption | exact Hp].
Qed.

End Writes.

(** ** Each handler writes permitted rows only *)

Section Logs.

Context {J : JSON}.

Lemma db_eq d d' :
  interviews d' = interviews d -> questions d' = questions d ->
  answers d' = answers d -> next_uuid d' = next_uuid d -> d' = d.
Proof. destruct d, d'; cbn; congruence. Qed.

Lemma insert_by_order_in q l x : In x (insert_by_order q l) <-> x = q \/ In x l.
Proof.
  induction l as [|y l IH]; cbn; [intuition congruence|].
  destruct (_ <=? _)%Z; cbn; [intuition congruence|].
  rewrite IH. intuition congruence.
Qed.

Lemma order_by_in l x : In x (order_by_question_order l) <-> In x l.
Proof.
  induction l as [|y l IH]; cbn; [tauto|].
  rewrite insert_by_order_in, IH. intuition congruence.
Qed.

(** What a row read by [select_questions] is. *)
Lemma select_questions_row id d qa :
  In qa (select_questions id d) ->
  In (fst qa) (questions d) /\ Questions.interview_id (fst qa) = id
  /\ snd qa = answers_of (Questions.id (fst qa)) d.
Proof.
  unfold select_questions. intros H.
  apply in_map_iff in H as (q & <- & Hq). cbn.
  rewrite order_by_in in Hq. apply filter_In in Hq as (Hq & E).
  apply Nat.eqb_eq in E. auto.
Qed.

Lemma last_in {A} (l : list A) (x d : A) : In (last (x :: l) d) (x :: l).
Proof.
  revert x. induction l as [|y l IH]; intros x; [left; reflexivity|].
  right. apply IH.
Qed.

(** The display, carried over to a state with the same session cells and
    at least the same questions. *)
Lemma question_on_display_mono w w' :
  incl (questions (db w)) (questions (db w')) ->
  interview (session w') = interview (session w) ->
  currentQuestion (session w') = currentQuestion (session w) ->
  currentQuestionId (session w') = currentQuestionId (session w) ->
  question_on_display w -> question_on_display w'.
Proof.
  intros Hincl Hi Hc Hid H iv Hiv Hcur.
  rewrite Hi in Hiv. rewrite Hc in Hcur |- *. rewrite Hid.
  destruct (H iv Hiv Hcur) as (Hst & q & Hq & Hrest).
  split; [exact Hst|]. exists q. split; [apply Hincl; exact Hq | exact Hrest].
Qed.

Lemma nothing_on_display w :
  currentQuestion (session w) = "" -> question_on_display w.
Proof. intros H iv _ Hc. congruence. Qed.

Lemma sent_question_permitted e iv h raw d :
  open_interview d iv -> permitted d (StoreQuestion (sent_question e iv h raw d)).
Proof.
  intros Ho. cbn. split; [reflexivity|]. split.
  - split; cbn; [apply trim_idempotent | lia].
  - exists iv. auto.
Qed.

Lemma generateNextQuestion_log e iv h w :
  open_interview (db w) iv -> interview (session w) = Some iv ->
  question_on_display w ->
  let w' := generateNextQuestion e iv h w in
  question_on_display w'
  /\ (db w' = db w
      \/ exists q, db w' = commit (StoreQuestion q) (db w)
                   /\ permitted (db w) (StoreQuestion q)).
Proof.
  intros Ho Hiv Hd. cbv zeta.
  destruct (generateNextQuestion_cases e iv h w)
    as ([(raw & _ & _ & _ & Hdb & Hc & Hid & _) | (_ & Hdb & Hc & Hid & _)]
        & _ & _ & Hi & _).
  - cbv zeta in Hdb, Hc, Hid. split.
    + intros iv' Hiv' _. rewrite Hi, Hiv in Hiv'. injection Hiv' as <-.
      split; [apply Ho|].
      exists (sent_question e iv h raw (db w)).
      rewrite Hdb, Hc, Hid. cbn [question_stored questions sent_question
        Questions.interview_id Questions.id Questions.question_text].
      split; [apply in_or_app; right; left; reflexivity | auto].
    + right. exists (sent_question e iv h raw (db w)).
      split; [exact Hdb | apply sent_question_permitted; exact Ho].
  - split; [|left; exact Hdb].
    apply (question_on_display_mono w); try assumption.
    rewrite Hdb. apply incl_refl.
Qed.

Lemma generateFinalFeedback_log e iv h w :
  open_interview (db w) iv -> h <> [] ->
  question_on_display w ->
  let w' := generateFinalFeedback e iv h w in
  question_on_display w'
  /\ (db w' = db w
      \/ exists sc st im,
           db w' = commit (CompleteInterview (Interviews.id iv) sc st im (now e)) (db w)
           /\ permitted (db w) (CompleteInterview (Interviews.id iv) sc st im (now e))).
Proof.
  intros Ho Hne Hd. cbv zeta.
  destruct (generateFinalFeedback_keeps e iv h w) as (Hq & _ & _ & Hs).
  split.
  - apply (question_on_display_mono w); try (rewrite Hs; reflexivity); [|exact Hd].
    rewrite Hq. apply incl_refl.
  - destruct (generateFinalFeedback_effect e iv h w) as (_ & _ & [(Hdb & _) | (raw & Hdb & _)]).
    + left. exact Hdb.
    + right. exists (final_overallScore raw h), (final_strengths raw), (final_improvements raw).
      split; [exact Hdb|]. cbn. split; [apply final_overallScore_some; exact Hne|].
      exists iv. auto.
Qed.

End Logs.

Section OpLogs.

Context {J : JSON}.

Ltac distinct_kinds := cbn; repeat constructor; cbn; intuition discriminate.

(** The score of an evaluation is never zero: a zero or missing score
    gives way to 5. *)
Lemma evaluation_score_truthy raw : Js.truthy_number (evaluation_score raw) = true.
Proof.
  unfold evaluation_score. destruct (parse_evaluation raw) as [| |parsed]; try reflexivity.
  unfold Js.or_number. destruct (Evaluation.score parsed) as [| |q]; try reflexivity.
  destruct (Js.truthy_number q) eqn:E; [exact E | reflexivity].
Qed.

Lemma sent_answer_permitted e w iv q raw :
  open_interview (db w) iv -> In q (questions (db w)) ->
  Questions.interview_id q = Interviews.id iv ->
  blank (userAnswer (session w)) = false ->
  permitted (db w) (StoreAnswer (sent_answer e w (Questions.id q) raw)).
Proof.
  intros Ho Hq Hi Hb. cbn. split; [reflexivity|]. split.
  - split; [exact Hb|]. split; [eexists; reflexivity|].
    eexists. split; [reflexivity | apply evaluation_score_truthy].
  - exists iv, q. auto.
Qed.

Lemma handleSubmitAnswer_log e w id :
  route w = RouteInterview id -> on_display w -> question_on_display w ->
  currentQuestion (session w) <> "" ->
  let w' := handleSubmitAnswer e w in
  question_on_display w'
  /\ exists log,
       db w' = commits log (db w) /\ permitted_log (db w) log
       /\ NoDup (map write_kind log) /\ creates_nothing log.
Proof.
  intros Hroute Hon Hdis Hcur. cbv zeta.
  assert (Hnil : forall w1 : World,
    db w1 = db w -> interview (session w1) = interview (session w) ->
    currentQuestion (session w1) = currentQuestion (session w) ->
    currentQuestionId (session w1) = currentQuestionId (session w) ->
    question_on_display w1
    /\ exists log,
         db w1 = commits log (db w) /\ permitted_log (db w) log
         /\ NoDup (map write_kind log) /\ creates_nothing log).
  { intros w1 Hd Hi Hc Hq. split.
    - apply (question_on_display_mono w); try assumption.
      rewrite Hd. apply incl_refl.
    - exists []. cbn. split; [exact Hd|]. split; [exact I|]. split; [constructor|].
      intros r []. }
  destruct (handleSubmitAnswer_cases e w) as (Hnone & Hsome).
  destruct (interview (session w)) as [iv|] eqn:Hiv;
    [|rewrite Hnone by auto; apply Hnil; solve [reflexivity | assumption]].
  destruct (blank (userAnswer (session w))) eqn:Hb;
    [rewrite Hnone by auto; apply Hnil; solve [reflexivity | assumption]|].
  destruct (Hon id iv Hroute Hiv) as (Hin & Hst).
  destruct (Hdis iv Hiv Hcur) as (_ & q & Hq & Hqi & Hqid & Hqt).
  assert (Hans : Js.trim (userAnswer (session w)) <> "").
  { intros E. apply trim_blank in E. congruence. }
  destruct (Hsome iv eq_refl eq_refl)
    as [(qid & raw & Hqid' & Hinq & Hinv & Hok & _) | (Hd & Hs & _)].
  2:{ apply Hnil; [exact Hd | rewrite Hs; cbn; solve [reflexivity | assumption] ..]. }
  rewrite Hqid in Hqid'. injection Hqid' as <-.
  rewrite (handleSubmitAnswer_success e w iv (Questions.id q) raw) by assumption.
  cbv zeta.
  set (a := sent_answer e w (Questions.id q) raw).
  set (history := qaHistory (session w) ++ _).
  set (w1 := setCurrentQuestion "" _).
  assert (Hpa : permitted (db w) (StoreAnswer a)).
  { apply (sent_answer_permitted e w iv q raw); try assumption. split; assumption. }
  assert (Ho1 : open_interview (db w1) iv) by (split; [exact Hin | exact Hst]).
  assert (Hi1 : interview (session w1) = Some iv) by exact Hiv.
  assert (Hd1 : question_on_display w1) by (apply nothing_on_display; reflexivity).
  assert (Hne : history <> []).
  { subst history. intros H. destruct (qaHistory (session w)); discriminate. }
  assert (Hwrap : forall w2 : World,
    question_on_display w2 -> question_on_display (setIsSubmitting false w2)).
  { intros w2. apply question_on_display_mono; try reflexivity. apply incl_refl. }
  destruct (_ <=? _)%Z.
  - destruct (generateFinalFeedback_log e iv history w1 Ho1 Hne Hd1)
      as (Hd2 & [Hdb | (sc & st & im & Hdb & Hp)]).
    + split; [apply Hwrap; exact Hd2|]. exists [StoreAnswer a].
      cbn [db setIsSubmitting set_session]. rewrite Hdb.
      split; [reflexivity|]. split; [cbn; auto|]. split; [distinct_kinds|].
      intros r [H | []]. discriminate.
    + split; [apply Hwrap; exact Hd2|].
      exists [StoreAnswer a; CompleteInterview (Interviews.id iv) sc st im (now e)].
      cbn [db setIsSubmitting set_session]. rewrite Hdb.
      split; [reflexivity|]. split; [cbn; auto|]. split; [distinct_kinds|].
      intros r [H | [H | []]]; discriminate.
  - destruct (generateNextQuestion_log e iv history w1 Ho1 Hi1 Hd1)
      as (Hd2 & [Hdb | (q' & Hdb & Hp)]).
    + split; [apply Hwrap; exact Hd2|]. exists [StoreAnswer a].
      cbn [db setIsSubmitting set_session]. rewrite Hdb.
      split; [reflexivity|]. split; [cbn; auto|]. split; [distinct_kinds|].
      intros r [H | []]. discriminate.
    + split; [apply Hwrap; exact Hd2|].
      exists [StoreAnswer a; StoreQuestion q'].
      cbn [db setIsSubmitting set_session]. rewrite Hdb.
      split; [reflexivity|]. split; [cbn; auto|]. split; [distinct_kinds|].
      intros r [H | [H | []]]; discriminate.
Qed.

Lemma short_log_kinds (log : list Write) :
  length log <= 1 -> NoDup (map write_kind log).
Proof.
  destruct log as [|x [|y log]]; cbn; intros H; [constructor | | lia].
  constructor; [intros [] | constructor].
Qed.

Lemma mount_interview_log e id w :
  let w' := mount_interview e id w in
  question_on_display w'
  /\ exists log,
       db w' = commits log (db w) /\ permitted_log (db w) log
       /\ length log <= 1 /\ creates_nothing log.
Proof.
  cbv zeta. unfold mount_interview, fetchInterview.
  set (w0 := set_session initial_session (navigate (RouteInterview id) w)).
  assert (Hwrap : forall w2 : World,
    question_on_display w2 -> question_on_display (setIsLoading false w2)).
  { intros w2. apply question_on_display_mono; try reflexivity. apply incl_refl. }
  assert (Hnil : forall w1 : World,
    db w1 = db w -> question_on_display w1 ->
    question_on_display (setIsLoading false w1)
    /\ exists log,
         db (setIsLoading false w1) = commits log (db w) /\ permitted_log (db w) log
         /\ length log <= 1 /\ creates_nothing log).
  { intros w1 Hd Hq. split; [apply Hwrap; exact Hq|].
    exists []. cbn. split; [exact Hd|]. split; [exact I|]. split; [lia|].
    intros r []. }
  assert (Hone : forall (w1 : World) x,
    db w1 = commit x (db w) -> permitted (db w) x ->
    (forall r, x <> CreateInterview r) ->
    question_on_display w1 ->
    question_on_display (setIsLoading false w1)
    /\ exists log,
         db (setIsLoading false w1) = commits log (db w) /\ permitted_log (db w) log
         /\ length log <= 1 /\ creates_nothing log).
  { intros w1 x Hd Hp Hx Hq. split; [apply Hwrap; exact Hq|].
    exists [x]. cbn. split; [exact Hd|]. split; [auto|]. split; [lia|].
    intros r [H | []]. exact (Hx r H). }
  destruct (if select_interview_ok e then select_interview id (db w0) else None)
    as [iv|] eqn:Hsel;
    [|apply Hnil; [reflexivity | apply nothing_on_display; reflexivity]].
  destruct (interview_status_eqb (Interviews.status iv) completed) eqn:Hst;
    [apply Hnil; [reflexivity | apply nothing_on_display; reflexivity]|].
  apply interview_status_eqb_completed in Hst.
  assert (Hin : In iv (interviews (db w)) /\ Interviews.id iv = id).
  { destruct (select_interview_ok e); [|discriminate].
    apply select_interview_in in Hsel. exact Hsel. }
  destruct Hin as (Hin & Hid).
  set (w1 := setInterview (Some iv) w0).
  assert (Hnext : forall h (w2 : World),
    db w2 = db w -> interview (session w2) = Some iv ->
    currentQuestion (session w2) = "" ->
    let w3 := generateNextQuestion e iv h w2 in
    question_on_display (setIsLoading false w3)
    /\ exists log,
         db (setIsLoading false w3) = commits log (db w) /\ permitted_log (db w) log
         /\ length log <= 1 /\ creates_nothing log).
  { intros h w2 Hd Hi Hc.
    assert (Ho : open_interview (db w2) iv) by (rewrite Hd; split; assumption).
    destruct (generateNextQuestion_log e iv h w2 Ho Hi (nothing_on_display w2 Hc))
      as (Hq & [Hdb | (q & Hdb & Hp)]).
    - apply Hnil; [congruence | exact Hq].
    - rewrite Hd in Hdb, Hp. apply (Hone _ (StoreQuestion q)); try assumption.
      intros r; discriminate. }
  destruct (select_questions_ok e); [|apply Hnext; reflexivity].
  cbv iota beta.
  destruct (select_questions id (db w1)) as [|first rest] eqn:Hrows;
    [apply Hnext; reflexivity|].
  set (questionsData := first :: rest).
  assert (Hlast : In (last questionsData first) (select_questions id (db w))).
  { change (db w) with (db w1). rewrite Hrows. apply last_in. }
  apply select_questions_row in Hlast as (Hlq & Hli & _).
  destruct (snd (last questionsData first)) as [|a ans].
  - apply Hnil; [reflexivity|].
    intros iv' Hiv' _. cbn in Hiv'. injection Hiv' as <-.
    split; [exact Hst|].
    exists (fst (last questionsData first)).
    split; [exact Hlq|]. split; [rewrite Hli, Hid; reflexivity|].
    split; reflexivity.
  - destruct (_ <? _)%Z; [apply Hnext; reflexivity|].
    set (w2 := setQuestionNumber _ _).
    assert (Ho : open_interview (db w2) iv) by (split; assumption).
    assert (Hne : map existing_qa questionsData <> []) by discriminate.
    destruct (generateFinalFeedback_log e iv _ w2 Ho Hne
                (nothing_on_display w2 eq_refl))
      as (Hq & [Hdb | (sc & st & im & Hdb & Hp)]).
    + apply Hnil; [exact Hdb | exact Hq].
    + apply (Hone _ (CompleteInterview (Interviews.id iv) sc st im (now e)));
        try assumption.
      intros r; discriminate.
Qed.

Lemma handleStartInterview_log e w :
  In (Setup.questionCount (setup w)) Setup.questionCounts ->
  question_on_display w ->
  let w' := handleStartInterview e w in
  question_on_display w'
  /\ (db w' = db w /\ route w' = route w
      \/ db w' = commit (CreateInterview (created_row e w)) (db w)
         /\ permitted (db w) (CreateInterview (created_row e w))
         /\ route w' = RouteInterview (next_uuid (db w))).
Proof.
  intros Hcount Hdis. cbv zeta.
  assert (Hsess : session (handleStartInterview e w) = session w).
  { unfold handleStartInterview. destruct (negb _); [reflexivity|].
    destruct (insert_interview_ok e); reflexivity. }
  destruct (handleStartInterview_cases e w)
    as [(Hd & Hr & _) | (Hrole & _ & Hi & Hq & Ha & Hn & Hr)].
  - split; [|left; auto].
    apply (question_on_display_mono w); try (rewrite Hsess; reflexivity); [|exact Hdis].
    rewrite Hd. apply incl_refl.
  - split.
    + apply (question_on_display_mono w); try (rewrite Hsess; reflexivity); [|exact Hdis].
      rewrite Hq. apply incl_refl.
    + right. split; [|split; [|exact Hr]].
      * apply db_eq; cbn; assumption.
      * cbn. split; [reflexivity|]. split; [repeat split|].
        split; [exact Hcount | exact Hrole].
Qed.

(** Every operation is a short log of permitted writes, and keeps the
    display sound. *)
Lemma apply_op_log o w :
  sound w ->
  let w' := apply_op o w in
  sound w'
  /\ exists log,
       db w' = commits log (db w) /\ permitted_log (db w) log
       /\ NoDup (map write_kind log)
       /\ (forall r, In (CreateInterview r) log ->
           exists e e', o = PressStart e e' /\ r = created_row e w).
Proof.
  intros (Hrows & Hpage & Hdis). cbv zeta.
  assert (Hok : page_ok (apply_op o w)).
  { destruct (apply_op_ok o w (sound_store_ok _ Hrows) Hpage) as (_ & H & _). exact H. }
  assert (Hgoal : forall log,
    question_on_display (apply_op o w) ->
    db (apply_op o w) = commits log (db w) -> permitted_log (db w) log ->
    NoDup (map write_kind log) ->
    (forall r, In (CreateInterview r) log ->
       exists e e', o = PressStart e e' /\ r = created_row e w) ->
    sound (apply_op o w)
    /\ exists log,
         db (apply_op o w) = commits log (db w) /\ permitted_log (db w) log
         /\ NoDup (map write_kind log)
         /\ (forall r, In (CreateInterview r) log ->
             exists e e', o = PressStart e e' /\ r = created_row e w)).
  { intros log Hq Hd Hp Hl Hc. split; [|exists log; auto].
    split; [|split; assumption].
    rewrite Hd. apply permitted_log_sound; assumption. }
  assert (Hstay : db (apply_op o w) = db w ->
    question_on_display (apply_op o w) ->
    sound (apply_op o w)
    /\ exists log,
         db (apply_op o w) = commits log (db w) /\ permitted_log (db w) log
         /\ NoDup (map write_kind log)
         /\ (forall r, In (CreateInterview r) log ->
             exists e e', o = PressStart e e' /\ r = created_row e w)).
  { intros Hd Hq. apply (Hgoal []); cbn; auto; [constructor | intros r []]. }
  destruct o as [r e | ev | e e' | text | e]; cbn [apply_op] in *.
  - destruct r as [ | | | id | id]; try (apply Hstay; [reflexivity | exact Hdis]).
    destruct (mount_interview_log e id w) as (Hq & log & Hd & Hp & Hl & Hc).
    apply (Hgoal log); try assumption; [apply short_log_kinds; exact Hl|].
    intros r Hr. destruct (Hc r Hr).
  - destruct (route w); apply Hstay; try reflexivity; exact Hdis.
  - destruct (route w) eqn:Hroute; try (apply Hstay; [reflexivity | exact Hdis]).
    destruct (handleStartInterview_log e w (proj1 Hpage) Hdis)
      as (Hq & [(Hd & Hr) | (Hd & Hp & Hr)]).
    + rewrite Hr, Hroute in *. apply Hstay; assumption.
    + rewrite Hr in *.
      destruct (mount_interview_log e' (next_uuid (db w)) (handleStartInterview e w))
        as (Hq' & log & Hd' & Hp' & Hl & Hc).
      apply (Hgoal (CreateInterview (created_row e w) :: log)); try assumption.
      * rewrite Hd', Hd. reflexivity.
      * cbn [permitted_log]. split; [exact Hp|]. rewrite <- Hd. exact Hp'.
      * cbn [map write_kind]. constructor; [|apply short_log_kinds; exact Hl].
        intros Hin. apply in_map_iff in Hin as ([r| | |] & Hk & Hin); try discriminate.
        destruct (Hc r Hin).
      * intros r [H | H]; [injection H as <-; eauto | destruct (Hc r H)].
  - destruct (input_area_rendered w); apply Hstay; try reflexivity; exact Hdis.
  - destruct (input_area_rendered w) eqn:Hin; [|apply Hstay; [reflexivity | exact Hdis]].
    unfold input_area_rendered in Hin.
    destruct (route w) as [ | | | id | id] eqn:Hroute; try discriminate.
    destruct (interview (session w)) as [iv|] eqn:Hiv; [|discriminate].
    assert (Hcur : currentQuestion (session w) <> "").
    { intros E. rewrite E in Hin. cbn in Hin. rewrite andb_false_r in Hin. discriminate. }
    destruct (handleSubmitAnswer_log e w id Hroute (proj2 Hpage) Hdis Hcur)
      as (Hq & log & Hd & Hp & Hl & Hc).
    apply (Hgoal log); try assumption.
    intros r Hr. destruct (Hc r Hr).
Qed.

Lemma initial_world_sound : sound initial_world.
Proof.
  split; [|split; [apply initial_world_ok | apply nothing_on_display; reflexivity]].
  split; [apply initial_world_ok | cbn; constructor ..].
Qed.

Lemma reachable_sound ops : sound (run ops initial_world).
Proof.
  apply (run_invariant sound (fun _ => True)).
  - intros o w _ Hs. apply (apply_op_log o w Hs).
  - apply Forall_forall. auto.
  - apply initial_world_sound.
Qed.

End OpLogs.

(** ** What holds of every store the workflow reaches *)

Section Reachable.

Context {J : JSON}.

Lemma commit_tables x d :
  questions (commit x d) = questions d ++ log_questions [x]
  /\ answers (commit x d) = answers d ++ log_answers [x]
  /\ map Interviews.id (interviews (commit x d))
     = map Interviews.id (interviews d) ++ map Interviews.id (log_interviews [x]).
Proof.
  destruct x as [r | q | a | id sc st im t]; cbn [commit];
    [cbn; rewrite ?app_nil_r, ?map_app; auto ..|].
  rewrite update_interview_ids. cbn. rewrite ?app_nil_r. auto.
Qed.

Lemma commits_tables log : forall d,
  questions (commits log d) = questions d ++ log_questions log
  /\ answers (commits log d) = answers d ++ log_answers log
  /\ map Interviews.id (interviews (commits log d))
     = map Interviews.id (interviews d) ++ map Interviews.id (log_interviews log).
Proof.
  induction log as [|x log IH]; intros d.
  - cbn. rewrite ?app_nil_r. auto.
  - change (commits (x :: log) d) with (commits log (commit x d)).
    destruct (IH (commit x d)) as (H1 & H2 & H3).
    destruct (commit_tables x d) as (E1 & E2 & E3).
    rewrite H1, H2, H3, E1, E2, E3.
    unfold log_questions, log_answers, log_interviews. cbn [flat_map].
    rewrite ?app_nil_r, ?map_app, <- ?app_assoc. auto.
Qed.

(** A log of distinct kinds adds at most one row to each table. *)
Lemma one_of_a_kind log :
  NoDup (map write_kind log) ->
  length (log_questions log) <= 1 /\ length (log_answers log) <= 1
  /\ length (log_interviews log) <= 1.
Proof.
  assert (Hnone : forall k log, ~ In k (map write_kind log) ->
    (k = 1 -> log_questions log = []) /\ (k = 2 -> log_answers log = [])
    /\ (k = 0 -> log_interviews log = [])).
  { intros k l. induction l as [|x l IH]; intros Hk; [cbn; auto|].
    cbn [map] in Hk.
    assert (Hx : write_kind x <> k) by (intros E; apply Hk; left; exact E).
    assert (Hl : ~ In k (map write_kind l)) by (intros E; apply Hk; right; exact E).
    destruct (IH Hl) as (H1 & H2 & H3).
    unfold log_questions, log_answers, log_interviews in *. cbn [flat_map].
    destruct x; cbn in *; repeat split; intros ->; auto; congruence. }
  induction log as [|x log IH]; intros Hnd; [cbn; lia|].
  inversion Hnd as [|k l Hk Hnd']; subst.
  destruct (IH Hnd') as (H1 & H2 & H3).
  destruct (Hnone _ _ Hk) as (N1 & N2 & N3).
  unfold log_questions, log_answers, log_interviews in *. cbn [flat_map].
  destruct x; cbn [app length write_kind] in *;
    rewrite ?N1, ?N2, ?N3 by reflexivity; cbn; lia.
Qed.

Lemma run_cons o ops w : run (o :: ops) w = run ops (apply_op o w).
Proof. reflexivity. Qed.

Lemma run_grows ops : forall w,
  sound w ->
  exists qs ans ids,
    questions (db (run ops w)) = questions (db w) ++ qs
    /\ answers (db (run ops w)) = answers (db w) ++ ans
    /\ map Interviews.id (interviews (db (run ops w)))
       = map Interviews.id (interviews (db w)) ++ ids
    /\ length qs <= length ops /\ length ans <= length ops
    /\ length ids <= length ops.
Proof.
  induction ops as [|o ops IH]; intros w Hs.
  - exists [], [], []. cbn. rewrite ?app_nil_r. auto 10.
  - rewrite run_cons.
    destruct (apply_op_log o w Hs) as (Hs' & log & Hd & _ & Hk & _).
    destruct (IH _ Hs') as (qs & ans & ids & E1 & E2 & E3 & L1 & L2 & L3).
    destruct (commits_tables log (db w)) as (C1 & C2 & C3).
    destruct (one_of_a_kind log Hk) as (K1 & K2 & K3).
    rewrite Hd in E1, E2, E3. rewrite C1 in E1. rewrite C2 in E2. rewrite C3 in E3.
    exists (log_questions log ++ qs), (log_answers log ++ ans),
           (map Interviews.id (log_interviews log) ++ ids).
    rewrite E1, E2, E3, <- ?app_assoc, ?length_app, ?length_map. cbn [length].
    repeat split; lia.
Qed.

(** X6.  The workflow never deletes or rewrites a stored question or
    answer, and never drops an interview: from any state it reaches, and
    whatever fails on the way, the questions and the answers of a later
    state are those of the earlier one followed by new rows, and the
    interviews keep their identifiers and their places.  Each operation
    (opening a page, a form input, Start, typing, Send) adds at most one
    interview, one question and one answer. *)
Theorem store_only_grows ops ops' :
  let w := run ops initial_world in
  let w' := run ops' w in
  exists qs ans ids,
    questions (db w') = questions (db w) ++ qs
    /\ answers (db w') = answers (db w) ++ ans
    /\ map Interviews.id (interviews (db w'))
       = map Interviews.id (interviews (db w)) ++ ids
    /\ length qs <= length ops' /\ length ans <= length ops'
    /\ length ids <= length ops'.
Proof. apply run_grows, reachable_sound. Qed.


(** X8.  Whenever the answer box is on the screen, in any state the
    workflow reaches: the interview on display is a row of the store that
    is not completed, and the question on display is a stored question of
    that interview, shown with its stored text and held by its identifier.
    So Send can only attach the typed answer to the question the user is
    looking at: it stores nothing, or exactly one answer, for that
    question, with the text as typed. *)
Theorem answers_attach_to_the_displayed_question ops :
  let w := run ops initial_world in
  input_area_rendered w = true ->
  exists iv q,
    interview (session w) = Some iv
    /\ In iv (interviews (db w)) /\ Interviews.status iv <> completed
    /\ In q (questions (db w))
    /\ Questions.interview_id q = Interviews.id iv
    /\ currentQuestionId (session w) = Some (Questions.id q)
    /\ currentQuestion (session w) = Questions.question_text q
    /\ forall e,
         let w' := apply_op (PressSubmit e) w in
         answers (db w') = answers (db w)
         \/ exists a,
              answers (db w') = answers (db w) ++ [a]
              /\ Answers.question_id a = Questions.id q
              /\ Answers.answer_text a = userAnswer (session w).
Proof.
  cbv zeta. intros Hin.
  destruct (reachable_sound ops) as (_ & (_ & Hon) & Hdis).
  set (w := run ops initial_world) in *.
  pose proof Hin as Hin'. unfold input_area_rendered in Hin'.
  destruct (route w) as [ | | | id | id] eqn:Hroute; try discriminate.
  destruct (interview (session w)) as [iv|] eqn:Hiv; [|discriminate].
  assert (Hcur : currentQuestion (session w) <> "").
  { intros E. rewrite E in Hin'. cbn in Hin'. rewrite andb_false_r in Hin'. discriminate. }
  destruct (Hon id iv Hroute Hiv) as (Hiin & Hst).
  destruct (Hdis iv Hiv Hcur) as (_ & q & Hq & Hqi & Hqid & Hqt).
  exists iv, q. repeat (split; [first [assumption | reflexivity]|]).
  intros e. cbn [apply_op]. rewrite Hin.
  destruct (handleSubmitAnswer_cases e w) as (Hnone & Hsome).
  destruct (blank (userAnswer (session w))) eqn:Hb.
  - left. rewrite Hnone by auto. reflexivity.
  - destruct (Hsome iv Hiv eq_refl)
      as [(qid & raw & Hqid' & _ & _ & _ & Ha & _) | (Hd & _)].
    + right. exists (sent_answer e w qid raw). split; [exact Ha|].
      cbn. split; [congruence | reflexivity].
    + left. rewrite Hd. reflexivity.
Qed.

End Reachable.

(** ** Completed interviews, and whose rows these are *)

Section Frozen.

Context {J : JSON}.






(** The interviews of a store all belong to [uid]. *)
Lemma permitted_log_owned uid log : forall d,
  Forall (fun r => Interviews.user_id r = uid) (interviews d) ->
  (forall r, In (CreateInterview r) log -> Interviews.user_id r = uid) ->
  Forall (fun r => Interviews.user_id r = uid) (interviews (commits log d)).
Proof.
  induction log as [|x log IH]; intros d Hd Hlog; [exact Hd|].
  change (commits (x :: log) d) with (commits log (commit x d)).
  apply IH; [|intros r Hr; apply Hlog; right; exact Hr].
  destruct x as [r | q | a | id sc st im t]; cbn; try exact Hd.
  - apply Forall_app. split; [exact Hd|]. constructor; [|constructor].
    apply Hlog. left. reflexivity.
  - rewrite Forall_map. eapply Forall_impl; [|exact Hd].
    intros r Hr. destruct (_ =? _); exact Hr.
Qed.

Lemma run_owned uid ops : forall w,
  sound w -> Forall (acts_as uid) ops ->
  Forall (fun r => Interviews.user_id r = uid) (interviews (db w)) ->
  Forall (fun r => Interviews.user_id r = uid) (interviews (db (run ops w))).
Proof.
  induction ops as [|o ops IH]; intros w Hs Hact Hown; [exact Hown|].
  inversion Hact as [|o' ops' Ho Hact']; subst.
  rewrite run_cons.
  destruct (apply_op_log o w Hs) as (Hs' & log & Hd & _ & _ & Hc).
  apply IH; [exact Hs' | exact Hact' |].
  rewrite Hd. apply permitted_log_owned; [exact Hown|].
  intros r Hr. destruct (Hc r Hr) as (e & e' & -> & ->).
  cbn in Ho. cbn. apply Ho.
Qed.

(** X10.  While one user is signed in, every row the workflow stores
    passes the row-level security policy of its table for that user: each
    interview is the user's own, each question belongs to an interview of
    the user, and each answer to a question of an interview of the user.
    So the policies never reject a write of the workflow and never hide
    one of its rows from the user who wrote it. *)
Theorem rows_pass_row_level_security uid ops :
  Forall (acts_as uid) ops ->
  let d := db (run ops initial_world) in
  Forall (fun r => Policy.on_interviews uid r = true) (interviews d)
  /\ Forall (fun q => Policy.on_questions uid d q = true) (questions d)
  /\ Forall (fun a => Policy.on_answers uid d a = true) (answers d).
Proof.
  intros Hact. cbv zeta.
  pose proof (run_owned uid ops initial_world initial_world_sound Hact
                (Forall_nil _)) as Hown.
  destruct (reachable_sound ops) as ([_ _ _ _ _ Hqr Har _ _] & _).
  set (d := db (run ops initial_world)) in *.
  rewrite Forall_forall in Hown, Hqr, Har.
  assert (Hq : forall q, In q (questions d) ->
            exists i, In i (interviews d)
                      /\ Interviews.id i = Questions.interview_id q
                      /\ Interviews.user_id i = uid).
  { intros q Hin. specialize (Hqr q Hin). apply in_map_iff in Hqr as (i & E & Hi).
    exists i. auto. }
  split; [|split]; apply Forall_forall.
  - intros r Hr. unfold Policy.on_interviews. apply Nat.eqb_eq.
    symmetry. auto.
  - intros q Hin. destruct (Hq q Hin) as (i & Hi & E1 & E2).
    unfold Policy.on_questions. apply existsb_exists. exists i.
    split; [exact Hi|]. rewrite E1, E2, !Nat.eqb_refl. reflexivity.
  - intros a Hin. specialize (Har a Hin). apply in_map_iff in Har as (q & E & Hqin).
    destruct (Hq q Hqin) as (i & Hi & E1 & E2).
    unfold Policy.on_answers. apply existsb_exists. exists q.
    split; [exact Hqin|]. apply existsb_exists. exists i.
    split; [exact Hi|]. rewrite E, E1, E2, !Nat.eqb_refl. reflexivity.
Qed.

End Frozen.

(** ** The results page, and the way between the pages *)

Section PagesTheorems.

Context {J : JSON}.

Lemma filter_id_row l r :
  NoDup (map Interviews.id l) -> In r l ->
  filter (fun r' => Interviews.id r' =? Interviews.id r) l = [r].
Proof.
  induction l as [|x l IH]; intros Hnd Hin; [destruct Hin|].
  cbn [map] in Hnd. inversion Hnd as [|i m Hx Hnd']; subst.
  cbn [filter]. destruct Hin as [-> | Hin].
  - rewrite Nat.eqb_refl. f_equal.
    clear IH Hnd Hnd'. induction l as [|y l IH]; [reflexivity|].
    cbn [filter]. destruct (Interviews.id y =? Interviews.id r) eqn:E.
    + apply Nat.eqb_eq in E. exfalso. apply Hx. rewrite <- E. left. reflexivity.
    + apply IH. intros H. apply Hx. right. exact H.
  - destruct (Interviews.id x =? Interviews.id r) eqn:E; [|apply IH; assumption].
    apply Nat.eqb_eq in E. exfalso. apply Hx. rewrite E. apply in_map. exact Hin.
Qed.

(** Reading a row of a well-formed store by its identifier gives the row. *)
Lemma select_interview_row d r :
  store_ok d -> In r (interviews d) -> select_interview (Interviews.id r) d = Some r.
Proof.
  intros [Hnd _ _] Hin. unfold select_interview.
  rewrite (filter_id_row _ r Hnd Hin). reflexivity.
Qed.

(** Where opening the interview page leaves the user. *)
Lemma mount_interview_route e id w :
  let w' := mount_interview e id w in
  route w' = RouteInterview id
  \/ (route w' = RouteDashboard
      /\ (select_interview_ok e = false \/ select_interview id (db w) = None))
  \/ (route w' = RouteResults id
      /\ exists r, select_interview id (db w') = Some r
                   /\ Interviews.status r = completed).
Proof.
  cbv zeta. unfold mount_interview, fetchInterview.
  set (w0 := set_session initial_session (navigate (RouteInterview id) w)).
  destruct (select_interview_ok e); [|right; left; split; [reflexivity | auto]].
  destruct (select_interview id (db w0)) as [iv|] eqn:Hsel;
    [|right; left; split; [reflexivity | auto]].
  destruct (interview_status_eqb (Interviews.status iv) completed) eqn:Hst.
  { right. right. split; [reflexivity|]. exists iv. split; [exact Hsel|].
    destruct (Interviews.status iv); try discriminate. reflexivity. }
  pose proof (select_interview_in _ _ _ Hsel) as (_ & Hid).
  set (w1 := setInterview (Some iv) w0).
  assert (Hnext : forall h (w2 : World),
    route w2 = RouteInterview id ->
    route (setIsLoading false (generateNextQuestion e iv h w2)) = RouteInterview id).
  { intros h w2 Hr.
    destruct (generateNextQuestion_keeps e iv h w2) as (_ & _ & _ & _ & _ & Hr').
    cbn. rewrite Hr'. exact Hr. }
  destruct (if select_questions_ok e then Some (select_questions id (db w1)) else None)
    as [[|first rest]|]; try (left; apply Hnext; reflexivity).
  set (questionsData := first :: rest).
  destruct (snd (last questionsData first)) as [|a ans]; [left; reflexivity|].
  destruct (_ <? _)%Z; [left; apply Hnext; reflexivity|].
  set (w2 := setQuestionNumber _ _).
  destruct (generateFinalFeedback_effect e iv (map existing_qa questionsData) w2)
    as (_ & _ & [(_ & Hr) | (raw & Hd & Hr)]).
  - left. cbn [route setIsLoading set_session]. rewrite Hr. reflexivity.
  - right. right. cbn [route db setIsLoading set_session].
    rewrite Hr, Hd, Hid. split; [reflexivity|].
    exists (set_completed (final_overallScore raw (map existing_qa questionsData))
              (final_strengths raw) (final_improvements raw) (now e) iv).
    split; [|reflexivity].
    apply select_interview_update. exact Hsel.
Qed.

(** Where opening the results page leaves the user: it writes nothing, and
    it stays exactly when the interview can be read and is completed. *)
Lemma results_mount_route e id w :
  let p := Results.mount e id w in
  db (snd p) = db w
  /\ (route (snd p) = RouteResults id
      \/ route (snd p) = RouteDashboard
      \/ (route (snd p) = RouteInterview id
          /\ exists r, select_interview id (db w) = Some r
                       /\ Interviews.status r <> completed)).
Proof.
  cbv zeta. unfold Results.mount, Results.fetchResults.
  cbn [db navigate].
  destruct (select_interview_ok e); [|cbn; auto].
  destruct (select_interview id (db w)) as [iv|] eqn:Hsel; [|cbn; auto].
  destruct (interview_status_eqb (Interviews.status iv) completed) eqn:Hst;
    cbn [negb].
  - destruct (select_questions_ok e); cbn; auto.
  - cbn. split; [reflexivity|]. right. right. split; [reflexivity|].
    exists iv. split; [reflexivity|]. apply interview_status_eqb_completed. exact Hst.
Qed.

Lemma results_mount_stays e id w r :
  select_interview id (db w) = Some r -> Interviews.status r = completed ->
  route (snd (Results.mount e id w)) = RouteResults id
  \/ route (snd (Results.mount e id w)) = RouteDashboard.
Proof.
  intros Hsel Hst. unfold Results.mount, Results.fetchResults.
  cbn [db navigate].
  destruct (select_interview_ok e); [|cbn; auto].
  rewrite Hsel, Hst. cbn [interview_status_eqb negb].
  destruct (select_questions_ok e); cbn; auto.
Qed.

Lemma route_eqb_refl r : route_eqb r r = true.
Proof. destruct r; cbn; auto using Nat.eqb_refl. Qed.

Lemma follow_stays e es r p :
  route (snd (open_page e r p)) = r ->
  follow (e :: es) r p = Some (open_page e r p).
Proof. intros H. cbn [follow]. rewrite H, route_eqb_refl. reflexivity. Qed.

Lemma follow_dashboard e es p :
  follow (e :: es) RouteDashboard p = Some (open_page e RouteDashboard p).
Proof. apply follow_stays. reflexivity. Qed.

Lemma follow_to e es r p r' :
  route (snd (open_page e r p)) = r' -> route_eqb r' r = false ->
  follow (e :: es) r p = follow es r' (open_page e r p).
Proof. intros <- H. cbn [follow]. rewrite H. reflexivity. Qed.

(** Following from the results page of a completed interview. *)
Lemma follow_results_completed e e' es id p r :
  select_interview id (db (snd p)) = Some r -> Interviews.status r = completed ->
  exists p', follow (e :: e' :: es) (RouteResults id) p = Some p'.
Proof.
  intros Hsel Hst.
  destruct (results_mount_stays e id (snd p) r Hsel Hst) as [Hr | Hr].
  - eexists. apply follow_stays. exact Hr.
  - rewrite (follow_to e _ (RouteResults id) p RouteDashboard Hr eq_refl), follow_dashboard. eauto.
Qed.

(** Following from the interview page. *)
Lemma follow_interview e1 e2 e3 es id p :
  exists p', follow (e1 :: e2 :: e3 :: es) (RouteInterview id) p = Some p'.
Proof.
  destruct (mount_interview_route e1 id (snd p))
    as [Hr | [(Hr & _) | (Hr & r & Hsel & Hst)]].
  - eexists. apply follow_stays. exact Hr.
  - rewrite (follow_to e1 _ (RouteInterview id) p RouteDashboard Hr eq_refl), follow_dashboard. eauto.
  - rewrite (follow_to e1 _ (RouteInterview id) p (RouteResults id) Hr eq_refl).
    apply (follow_results_completed e2 e3 es id _ r); assumption.
Qed.

(** X11.  Navigation settles.  The interview page sends a completed
    interview to the results page and the results page sends an interview
    that is not completed to the interview page, and each sends the user
    to the dashboard when the interview cannot be read.  Whatever the
    store, the services and the reads do, following these redirections
    from any page comes to rest within four page loads: the two pages
    never send the user back and forth. *)
Theorem redirects_settle e1 e2 e3 e4 r p :
  exists p', follow [e1; e2; e3; e4] r p = Some p'.
Proof.
  destruct r as [ | | | id | id];
    try (eexists; apply follow_stays; reflexivity).
  - apply follow_interview.
  - destruct (results_mount_route e1 id (snd p)) as (_ & [Hr | [Hr | (Hr & _)]]).
    + eexists. apply follow_stays. exact Hr.
    + rewrite (follow_to e1 _ (RouteResults id) p RouteDashboard Hr eq_refl), follow_dashboard. eauto.
    + rewrite (follow_to e1 _ (RouteResults id) p (RouteInterview id) Hr eq_refl).
      apply follow_interview.
Qed.




End PagesTheorems.

(** ** The screen of the interview page *)

Section Screen.

Context {J : JSON}.


















End Screen.

(** ** The dashboard *)

Section DashboardTheorems.

Context {J : JSON}.

Lemma insert_by_created_in r l x : In x (insert_by_created r l) <-> x = r \/ In x l.
Proof.
  induction l as [|y l IH]; cbn; [intuition congruence|].
  destruct (_ <=? _); cbn; [intuition congruence|].
  rewrite IH. intuition congruence.
Qed.

Lemma order_by_created_in l x : In x (order_by_created_at_desc l) <-> In x l.
Proof.
  induction l as [|y l IH]; cbn; [tauto|].
  rewrite insert_by_created_in, IH. intuition congruence.
Qed.

Lemma insert_by_created_sorted r l :
  StronglySorted not_older l -> StronglySorted not_older (insert_by_created r l).
Proof.
  induction l as [|x l IH]; intros Hs; cbn.
  - repeat constructor.
  - inversion Hs as [|? ? Hl Hx]; subst.
    destruct (Interviews.created_at x <=? Interviews.created_at r) eqn:E.
    + apply Nat.leb_le in E. constructor; [exact Hs|].
      constructor; [exact E|].
      rewrite Forall_forall in Hx |- *. intros y Hy. specialize (Hx y Hy).
      unfold not_older in *. lia.
    + apply Nat.leb_gt in E. constructor; [apply IH; exact Hl|].
      apply Forall_forall. intros y Hy. apply insert_by_created_in in Hy as [-> | Hy].
      * unfold not_older. lia.
      * rewrite Forall_forall in Hx. apply Hx. exact Hy.
Qed.

Lemma order_by_created_sorted l : StronglySorted not_older (order_by_created_at_desc l).
Proof.
  induction l as [|x l IH]; cbn; [constructor | apply insert_by_created_sorted; exact IH].
Qed.

Lemma sorted_app_order {A} (R : A -> A -> Prop) l1 l2 :
  StronglySorted R (l1 ++ l2) -> forall a b, In a l1 -> In b l2 -> R a b.
Proof.
  induction l1 as [|x l1 IH]; intros Hs a b Ha Hb; [destruct Ha|].
  cbn in Hs. inversion Hs as [|? ? Hl Hx]; subst.
  destruct Ha as [-> | Ha]; [|eauto].
  rewrite Forall_forall in Hx. apply Hx. apply in_or_app. right. exact Hb.
Qed.

Lemma sorted_firstn {A} (R : A -> A -> Prop) n l :
  StronglySorted R l -> StronglySorted R (firstn n l).
Proof.
  revert l. induction n as [|n IH]; intros l Hs; [constructor|].
  destruct l as [|x l]; [constructor|]. cbn.
  inversion Hs as [|? ? Hl Hx]; subst. constructor; [apply IH; exact Hl|].
  rewrite Forall_forall in Hx |- *. intros y Hy. apply Hx.
  rewrite <- (firstn_skipn n l). apply in_or_app. left. exact Hy.
Qed.

Lemma in_firstn {A} n (l : list A) x : In x (firstn n l) -> In x l.
Proof.
  intros H. rewrite <- (firstn_skipn n l). apply in_or_app. left. exact H.
Qed.

Lemma sum_overall_bounds lo hi l : forall acc,
  Forall (fun i => (lo <= Js.or_number_opt (Interviews.overall_score i) 0
                    /\ Js.or_number_opt (Interviews.overall_score i) 0 <= hi)%Q) l ->
  (acc + inject_Z (Z.of_nat (length l)) * lo
   <= fold_left (fun sum i => Qred (sum + Js.or_number_opt (Interviews.overall_score i) 0))
                l acc
   /\ fold_left (fun sum i => Qred (sum + Js.or_number_opt (Interviews.overall_score i) 0))
                l acc
      <= acc + inject_Z (Z.of_nat (length l)) * hi)%Q.
Proof.
  induction l as [|i l IH]; intros acc Hall.
  - cbn [length fold_left]. change (inject_Z (Z.of_nat 0)) with 0%Q. split; lra.
  - inversion Hall as [|? ? (H1 & H2) Hl]; subst.
    cbn [fold_left].
    pose proof (Qred_correct (acc + Js.or_number_opt (Interviews.overall_score i) 0)) as Hr.
    set (acc' := Qred (acc + Js.or_number_opt (Interviews.overall_score i) 0)) in *.
    destruct (IH acc' Hl) as (L & U).
    change (length (i :: l)) with (S (length l)).
    rewrite Nat2Z.inj_succ, <- Z.add_1_r, inject_Z_plus.
    change (inject_Z 1) with 1%Q.
    set (n := inject_Z (Z.of_nat (length l))) in *.
    split; [eapply Qle_trans; [|exact L] | eapply Qle_trans; [exact U|]]; lra.
Qed.

(** The mean of numbers between two bounds lies between them. *)
Lemma avgScore_bounds lo hi l :
  Dashboard.completed_of l <> [] ->
  Forall (fun i => (lo <= Js.or_number_opt (Interviews.overall_score i) 0
                    /\ Js.or_number_opt (Interviews.overall_score i) 0 <= hi)%Q)
         (Dashboard.completed_of l) ->
  (lo <= Dashboard.avgScore l /\ Dashboard.avgScore l <= hi)%Q.
Proof.
  intros Hne Hall. unfold Dashboard.avgScore.
  destruct (Dashboard.completed_of l) as [|i c] eqn:Ec; [congruence|].
  replace (0 <? length (i :: c)) with true by (symmetry; apply Nat.ltb_lt; cbn; lia).
  rewrite Qred_correct. unfold Dashboard.sum_overall.
  destruct (sum_overall_bounds lo hi (i :: c) 0%Q Hall) as (L & U).
  set (n := inject_Z (Z.of_nat (length (i :: c)))) in *.
  assert (Hn : (0 < n)%Q).
  { subst n. change 0%Q with (inject_Z 0). rewrite <- Zlt_Qlt. cbn. lia. }
  split.
  - apply Qle_shift_div_l; [exact Hn|].
    eapply Qle_trans; [|exact L]. rewrite Qplus_0_l, Qmult_comm. apply Qle_refl.
  - apply Qle_shift_div_r; [exact Hn|].
    eapply Qle_trans; [exact U|]. rewrite Qplus_0_l, Qmult_comm. apply Qle_refl.
Qed.

(** The rows the dashboard reads are rows of the store, and the user's
    own. *)
Lemma select_recent_in uid d i :
  In i (select_recent_interviews uid d) ->
  In i (interviews d) /\ Interviews.user_id i = uid.
Proof.
  unfold select_recent_interviews. intros H. apply in_firstn in H.
  rewrite order_by_created_in, filter_In in H. destruct H as (H & E).
  unfold Policy.on_interviews in E. apply Nat.eqb_eq in E. auto.
Qed.

(** X15.  What the dashboard counts.  When the read fails, the dashboard
    keeps what it showed and notifies the failure.  When it gets through:
    the list holds at most ten interviews, all of them the signed-in
    user's own, newest first, and no interview of the user left out is
    newer than one on the list; the total is the length of the list, so
    never more than ten, and the completed and last-week counts are at
    most the total; the average is 0 when no interview on the list is
    completed, and otherwise it is a multiple of one tenth that lies
    within one twentieth of any two bounds between which the overall
    scores of the completed interviews on the list lie (a missing score
    counting as 0). *)
Theorem dashboard_counts_the_ten_latest e weekAgo s w :
  let p := Dashboard.fetchInterviews e weekAgo s w in
  let shown := Dashboard.interviews (fst p) in
  let st := Dashboard.stats (fst p) in
  (select_interview_ok e = false ->
   p = (Dashboard.setLoading false s,
        toast (error_toast "Failed to load interviews") w))
  /\ (select_interview_ok e = true ->
      snd p = w /\ Dashboard.loading (fst p) = false
      /\ shown = select_recent_interviews (user e) (db w)
      /\ length shown <= 10
      /\ Forall (fun i => In i (interviews (db w)) /\ Interviews.user_id i = user e)
                shown
      /\ StronglySorted not_older shown
      /\ (forall i j,
            In i shown -> In j (interviews (db w)) ->
            Interviews.user_id j = user e -> ~ In j shown -> not_older i j)
      /\ Dashboard.totalInterviews st = length shown
      /\ Dashboard.completedInterviews st = length (Dashboard.completed_of shown)
      /\ Dashboard.completedInterviews st <= Dashboard.totalInterviews st
      /\ Dashboard.lastWeekInterviews st <= Dashboard.totalInterviews st
      /\ (Dashboard.completedInterviews st = 0 -> Dashboard.averageScore st = 0%Q)
      /\ (exists k : Z, (Dashboard.averageScore st == k # 10)%Q)
      /\ (forall lo hi,
            Dashboard.completedInterviews st <> 0 ->
            Forall (fun i =>
                      (lo <= Js.or_number_opt (Interviews.overall_score i) 0
                       /\ Js.or_number_opt (Interviews.overall_score i) 0 <= hi)%Q)
                   (Dashboard.completed_of shown) ->
            (lo - (1 # 20) < Dashboard.averageScore st
             /\ Dashboard.averageScore st <= hi + (1 # 20))%Q)).
Proof.
  cbv zeta. unfold Dashboard.fetchInterviews.
  split; [intros ->; reflexivity|]. intros ->.
  cbn [fst snd Dashboard.interviews Dashboard.stats Dashboard.loading
       Dashboard.setLoading Dashboard.setStats Dashboard.setInterviews
       Dashboard.totalInterviews Dashboard.completedInterviews
       Dashboard.averageScore Dashboard.lastWeekInterviews].
  set (all := order_by_created_at_desc
                (filter (Policy.on_interviews (user e)) (interviews (db w)))).
  assert (Hall : forall x, In x all <->
            In x (interviews (db w)) /\ Interviews.user_id x = user e).
  { intros x. subst all. rewrite order_by_created_in, filter_In.
    unfold Policy.on_interviews. rewrite Nat.eqb_eq. intuition congruence. }
  assert (Hshown : select_recent_interviews (user e) (db w) = firstn 10 all) by reflexivity.
  rewrite Hshown.
  split; [reflexivity|]. split; [reflexivity|]. split; [reflexivity|].
  split; [apply firstn_le_length|].
  split.
  { apply Forall_forall. intros x Hx. apply Hall. apply (in_firstn 10). exact Hx. }
  split; [apply sorted_firstn, order_by_created_sorted|].
  split.
  { intros i j Hi Hj Hu Hn.
    apply (sorted_app_order not_older (firstn 10 all) (skipn 10 all)); [| exact Hi |].
    - rewrite firstn_skipn. apply order_by_created_sorted.
    - assert (Hin : In j all) by (apply Hall; auto).
      rewrite <- (firstn_skipn 10 all) in Hin. apply in_app_or in Hin as [Hin | Hin];
        [contradiction | exact Hin]. }
  split; [reflexivity|]. split; [reflexivity|].
  split; [apply filter_length_le|]. split; [apply filter_length_le|].
  split.
  { intros H0. unfold Dashboard.avgScore. rewrite H0. reflexivity. }
  destruct (round_to_tenth_nearest (Dashboard.avgScore (firstn 10 all)))
    as (k & Hk & Hlo & Hhi).
  split; [exists k; exact Hk|].
  intros lo hi Hne Hb.
  destruct (avgScore_bounds lo hi (firstn 10 all)) as (L & U); [|exact Hb|].
  - intros E. apply Hne. rewrite E. reflexivity.
  - split; lra.
Qed.

Lemma mount_interview_open e id w iv :
  select_interview_ok e = true -> select_interview id (db w) = Some iv ->
  let w' := mount_interview e id w in
  route w' = RouteInterview id
  \/ (route w' = RouteResults id
      /\ exists r, select_interview id (db w') = Some r
                   /\ Interviews.status r = completed).
Proof.
  intros Hok Hsel. cbv zeta.
  destruct (mount_interview_route e id w) as [H | [(_ & [H | H]) | H]];
    auto; congruence.
Qed.

(** X16.  A click on an entry of the dashboard opens the page that goes
    with the status the entry shows: the results page for a completed
    interview, the interview page otherwise.  With the store as the
    dashboard read it and the read of the interview getting through, that
    page stays: the only way on is that the interview page itself
    completes an interview whose questions are all answered, and then
    leads to the results page of the interview, now completed. *)
Theorem dashboard_links_lead_to_the_right_page ops e weekAgo s e' st i :
  let w := run ops initial_world in
  In i (Dashboard.interviews (fst (Dashboard.fetchInterviews e weekAgo s w))) ->
  select_interview_ok e = true -> select_interview_ok e' = true ->
  let p := open_page e' (Dashboard.link i) (st, w) in
  route (snd p) = Dashboard.link i
  \/ (Interviews.status i <> completed
      /\ route (snd p) = RouteResults (Interviews.id i)
      /\ exists r, select_interview (Interviews.id i) (db (snd p)) = Some r
                   /\ Interviews.status r = completed).
Proof.
  intros w Hin Hok Hok'. cbv zeta.
  unfold Dashboard.fetchInterviews in Hin. rewrite Hok in Hin. cbn in Hin.
  apply select_recent_in in Hin as (Hi & _).
  destruct (reachable_ok ops) as (Hs & _). fold w in Hs.
  pose proof (select_interview_row (db w) i Hs Hi) as Hsel.
  unfold Dashboard.link.
  destruct (interview_status_eqb (Interviews.status i) completed) eqn:Hst.
  - left. cbn [open_page snd]. unfold Results.mount, Results.fetchResults.
    cbn [db navigate]. rewrite Hok', Hsel, Hst. cbn [negb].
    destruct (select_questions_ok e'); reflexivity.
  - cbn [open_page snd fst apply_op].
    destruct (mount_interview_open e' (Interviews.id i) w i Hok' Hsel) as [H | H].
    + left. exact H.
    + right. split; [apply interview_status_eqb_completed; exact Hst | exact H].
Qed.

End DashboardTheorems.

(** ** When nothing fails *)

Section Progress.

Context {J : JSON}.

















End Progress.

(** ** Coming back to an interview *)

Section ComingBack.

Context {J : JSON}.





End ComingBack.

(** ** Instances *)


Lemma malformed_evaluation_falls_back_witness :
  let w' := @handleSubmitAnswer sample_json prose_env typed_world in
  map Answers.score (answers (db w')) = [Some 5%Q]
  /\ map Answers.ai_feedback (answers (db w'))
     = [Some "Solid answer, but add a concrete example."]
  /\ map score (qaHistory (session w')) = [Some 5%Q].
Proof.
  destruct (@malformed_evaluation_falls_back sample_json prose_env typed_world
              sample_interview 1 "Solid answer, but add a concrete example."
              eq_refl ltac:(vm_compute; discriminate) eq_refl
              ltac:(vm_compute; auto) eq_refl eq_refl eq_refl) as (Ha & Hh & _).
  cbv zeta. rewrite Ha, Hh. repeat split.
Defined.


Lemma generation_failure_is_retryable_witness :
  let w' := @handleSubmitAnswer sample_json down_env typed_world in
  db w' = db typed_world
  /\ qaHistory (session w') = qaHistory (session typed_world)
  /\ userAnswer (session w') = "I listened first, then proposed a compromise."
  /\ map Answers.score (answers (db (@handleSubmitAnswer sample_json prose_env w')))
     = [Some 5%Q].
Proof.
  destruct (proj1 (@generation_failure_is_retryable sample_json) down_env typed_world
              sample_interview eq_refl ltac:(vm_compute; discriminate) eq_refl)
    as (Hd & Hh & _ & _ & Hu & _ & _ & _ & Hretry).
  cbv zeta. rewrite Hd, Hh, Hu.
  rewrite (Hretry prose_env 1 "Solid answer, but add a concrete example."
             eq_refl ltac:(vm_compute; auto) eq_refl eq_refl).
  repeat split.
Defined.

Lemma gateway_failures_are_told_apart_witness :
  Proxy.handler (Some "secret") limited_gateway sample_request
  = {| Proxy.status := 429;
       Proxy.payload := Proxy.Error "Rate limit exceeded. Please try again in a moment." |}.
Proof.
  apply (gateway_failures_are_told_apart "s" "ecret" limited_gateway sample_request
           (@generate_question_body sample_interview [])
           {| Proxy.gateway_status := 429; Proxy.gateway_json := inr None |}
           eq_refl eq_refl eq_refl).
  reflexivity.
Defined.


(** ** Further instances *)

Lemma answers_attach_to_the_displayed_question_witness :
  exists iv q,
    interview (session asked_world) = Some iv
    /\ In q (questions (db asked_world))
    /\ Questions.interview_id q = Interviews.id iv
    /\ currentQuestionId (session asked_world) = Some (Questions.id q)
    /\ currentQuestion (session asked_world) = Questions.question_text q.
Proof.
  destruct (@answers_attach_to_the_displayed_question sample_json start_ops
              ltac:(vm_compute; reflexivity))
    as (iv & q & H1 & _ & _ & H2 & H3 & H4 & H5 & _).
  exists iv, q. repeat split; assumption.
Defined.


Lemma rows_pass_row_level_security_witness :
  let d := db completed_world in
  Forall (fun r => Policy.on_interviews 7 r = true) (interviews d)
  /\ Forall (fun q => Policy.on_questions 7 d q = true) (questions d)
  /\ Forall (fun a => Policy.on_answers 7 d a = true) (answers d).
Proof.
  apply (@rows_pass_row_level_security sample_json 7 complete_ops).
  vm_compute. repeat constructor.
Defined.




Lemma dashboard_links_lead_to_the_right_page_witness :
  route (snd (@open_page sample_json prose_env (Dashboard.link completed_interview)
                (Results.initial, completed_world)))
  = RouteResults 0.
Proof.
  destruct (@dashboard_links_lead_to_the_right_page sample_json complete_ops prose_env
              0 Dashboard.initial prose_env Results.initial completed_interview
              ltac:(vm_compute; auto) eq_refl eq_refl) as [H | (H & _)].
  - exact H.
  - destruct (H eq_refl).
Defined.



